(** * pg-mem: relational execution engine

    A shallow embedding of the parts of the engine that the specification
    talks about:

    - [Jsonb]: jsonb values and their structural comparator (exercised by
      the "orders jsonb values" suite);
    - [Sql]: SQL values, SQL NULL and the comparison operators;
    - [Versioning]: the transaction tree (fork / commit / rollback /
      fullCommit) and the two structural executors [DropIndex] and
      [DropSequence];
    - [QueryEngine]: the statement runner of [query.ts]
      ([_query], [executeSelect], [executeUpdate], [executeInsert],
      [executeCreateTable], [executeCreateIndex]). *)

From Stdlib Require Import ZArith Bool.
From stdpp Require Import base option list strings gmap.

Set Warnings "-register-all".

Local Open Scope string_scope.
Local Open Scope list_scope.
Local Open Scope Z_scope.

(** ** Errors raised by the engine (interfaces.ts, utils.ts) *)

Inductive Error : Type :=
  | NotSupported (what : string)
  | TableNotFound (table : string)
  | ObjectNotFound (name : string)
  | QueryError (message : string)
  | CastError (message : string)
  | PlainError (message : string)      (* [new Error(message)] *)
  | TypeError (message : string)       (* property access on [undefined] *)
  | InternalError (message : string).  (* invariant violation *)

Inductive result (A : Type) : Type :=
  | Ok (a : A)
  | Throw (e : Error).
Arguments Ok {A} a.
Arguments Throw {A} e.

(** [result] is used through stdpp's monad notations [x ← r; k]. *)
#[global] Instance result_ret : MRet result := λ A a, Ok a.
#[global] Instance result_bind : MBind result := λ A B k r,
  match r with
  | Ok a => k a
  | Throw e => Throw e
  end.

Definition succeeds {A} (r : result A) : bool :=
  match r with
  | Ok _ => true
  | Throw _ => false
  end.

(** ** Jsonb values and their structural order *)

Module Jsonb.

(** A parsed jsonb document.  Objects keep their entries in insertion
    order, as a JS object does; numbers are integers here. *)
Inductive json : Type :=
  | JNull
  | JBool (b : bool)
  | JNum (n : Z)
  | JStr (s : string)
  | JArr (items : list json)
  | JObj (fields : list (string * json)).

Fixpoint assoc (k : string) (fields : list (string * json)) : option json :=
  match fields with
  | [] => None
  | (k', v) :: rest => if String.eqb k k' then Some v else assoc k rest
  end.

(** The kinds of jsonb values the structural order ranks. *)
Inductive Kind : Type := KNull | KBool | KNum | KStr | KArr | KObj.

#[global] Instance Kind_eq_dec : EqDecision Kind.
Proof. solve_decision. Defined.

Definition kind (j : json) : Kind :=
  match j with
  | JNull => KNull
  | JBool _ => KBool
  | JNum _ => KNum
  | JStr _ => KStr
  | JArr _ => KArr
  | JObj _ => KObj
  end.

(** Modelled from the spec: the type rank of the structural order (the
    jsonb type's comparator is missing from the sources), "Rank order (low
    to high): NULL-json-value < boolean < number < string < array <
    object". *)
Definition rankOf (k : Kind) : nat :=
  match k with
  | KNull => 0
  | KBool => 1
  | KNum => 2
  | KStr => 3
  | KArr => 4
  | KObj => 5
  end%nat.

Definition rank (j : json) : nat := rankOf (kind j).

(** Modelled from the spec: the three-way structural comparator (missing
    from the sources), as section 4.1 words it.  Different ranks: by rank.
    Arrays: "element-wise comparison by index using the same structural
    order, shorter array is LESS than a longer array that agrees on the
    shared prefix".  Objects: "compared by number of keys first (fewer keys
    is LESS), then by structural comparison of values for keys present in
    both", in the left operand's key order. *)
Fixpoint compare (a b : json) {struct a} : comparison :=
  match a, b with
  | JNull, JNull => Eq
  | JBool x, JBool y => Bool.compare x y
  | JNum x, JNum y => Z.compare x y
  | JStr x, JStr y => String.compare x y
  | JArr xs, JArr ys =>
      (fix elements (xs ys : list json) {struct xs} : comparison :=
         match xs, ys with
         | [], [] => Eq
         | [], _ :: _ => Lt
         | _ :: _, [] => Gt
         | x :: xs', y :: ys' =>
             match compare x y with
             | Eq => elements xs' ys'
             | c => c
             end
         end) xs ys
  | JObj xs, JObj ys =>
      match Nat.compare (length xs) (length ys) with
      | Eq =>
          (fix entries (xs : list (string * json)) {struct xs} : comparison :=
             match xs with
             | [] => Eq
             | (k, v) :: xs' =>
                 match assoc k ys with
                 | Some w =>
                     match compare v w with
                     | Eq => entries xs'
                     | c => c
                     end
                 | None => entries xs'
                 end
             end) xs
      | c => c
      end
  | _, _ => Nat.compare (rank a) (rank b)
  end.

(** Modelled from the spec: equality "requires identical structure and
    values, not just ordering-equivalence". *)
Fixpoint equals (a b : json) {struct a} : bool :=
  match a, b with
  | JNull, JNull => true
  | JBool x, JBool y => Bool.eqb x y
  | JNum x, JNum y => Z.eqb x y
  | JStr x, JStr y => String.eqb x y
  | JArr xs, JArr ys =>
      (fix elements (xs ys : list json) {struct xs} : bool :=
         match xs, ys with
         | [], [] => true
         | x :: xs', y :: ys' => equals x y && elements xs' ys'
         | _, _ => false
         end) xs ys
  | JObj xs, JObj ys =>
      Nat.eqb (length xs) (length ys) &&
      (fix entries (xs : list (string * json)) {struct xs} : bool :=
         match xs with
         | [] => true
         | (k, v) :: xs' =>
             match assoc k ys with
             | Some w => equals v w && entries xs'
             | None => false
             end
         end) xs
  | _, _ => false
  end.

(** The five comparison operators of the suite:
    [=], [<], [<=], [>], [>=]. *)
Inductive CompareOp : Type := OpEq | OpLt | OpLe | OpGt | OpGe.

(** The documents used by the suite. *)
Definition obj_empty : json := JObj [].
Definition arr_empty : json := JArr [].








End Jsonb.

(** ** SQL values and the comparison operators *)

Module Sql.
Import Jsonb.

(** A value produced by evaluating an expression.  [VNull] is SQL NULL;
    the json null value is [VJsonb JNull]. *)
Inductive Value : Type :=
  | VNull
  | VBool (b : bool)
  | VInt (n : Z)
  | VText (s : string)
  | VJsonb (j : json).

(** Modelled from the spec: [compare(a, b) -> {LESS, EQUAL, GREATER,
    UNKNOWN}] of the type system (missing from the sources).  [None] is
    UNKNOWN; operands of two different types have no common comparator. *)
Definition compareValues (a b : Value) : result (option comparison) :=
  match a, b with
  | VNull, _ | _, VNull => Ok None
  | VBool x, VBool y => Ok (Some (Bool.compare x y))
  | VInt x, VInt y => Ok (Some (Z.compare x y))
  | VText x, VText y => Ok (Some (String.compare x y))
  | VJsonb x, VJsonb y => Ok (Some (Jsonb.compare x y))
  | _, _ => Throw (CastError "cannot compare values of different types")
  end.

(** Modelled from the spec: [equals(a, b) -> bool | UNKNOWN]. *)
Definition equalsValues (a b : Value) : result (option bool) :=
  match a, b with
  | VNull, _ | _, VNull => Ok None
  | VBool x, VBool y => Ok (Some (Bool.eqb x y))
  | VInt x, VInt y => Ok (Some (Z.eqb x y))
  | VText x, VText y => Ok (Some (String.eqb x y))
  | VJsonb x, VJsonb y => Ok (Some (Jsonb.equals x y))
  | _, _ => Throw (CastError "cannot compare values of different types")
  end.

(** UNKNOWN surfaces as a NULL result value. *)
Definition surface (r : option bool) : Value :=
  match r with
  | Some b => VBool b
  | None => VNull
  end.

(** Modelled from the spec: the binary operators [=], [<], [<=], [>],
    [>=] over two evaluated operands. *)
Definition evalCompare (op : CompareOp) (a b : Value) : result Value :=
  match op with
  | OpEq => r ← equalsValues a b; Ok (surface r)
  | OpLt =>
      c ← compareValues a b;
      Ok (surface ((λ c, match c with Lt => true | _ => false end) <$> c))
  | OpLe =>
      c ← compareValues a b;
      Ok (surface ((λ c, match c with Gt => false | _ => true end) <$> c))
  | OpGt =>
      c ← compareValues a b;
      Ok (surface ((λ c, match c with Gt => true | _ => false end) <$> c))
  | OpGe =>
      c ← compareValues a b;
      Ok (surface ((λ c, match c with Lt => false | _ => true end) <$> c))
  end.


End Sql.

(** ** Transactions and the structural DROP executors *)

Module Versioning.

(** A pending change recorded in a transaction; the executors below
    never look inside one. *)
Inductive Change : Type :=
  | Put (key : string) (value : Z)
  | Remove (key : string).

(** Transactions are objects shared by reference: a handle names one. *)
Abbreviation handle := nat.

Inductive Status : Type := Open | Committed | RolledBack.

#[global] Instance Status_eq_dec : EqDecision Status.
Proof. solve_decision. Defined.

(** "attributes: a parent reference (root has none), and a set of pending
    changes not yet visible outside it". *)
Record Transaction : Type := mkTransaction {
  parent : option handle;
  pending : list Change;
  status : Status
}.

Inductive SchemaObject : Type :=
  | TableObject
  | IndexObject (onTable : string)
  | SequenceObject.

(** The versioned store: what has been committed at the root, every
    transaction object created so far (a handle is its position), and the
    schema registry, which structural DDL mutates directly. *)
Record Store : Type := mkStore {
  committed : list Change;
  transactions : list Transaction;
  registry : gmap string SchemaObject
}.

Definition setTransactions (s : Store) (ts : list Transaction) : Store :=
  {| committed := committed s; transactions := ts; registry := registry s |}.

(** Using a terminal transaction is "a fatal internal error ..., never a
    silent no-op". *)
Definition getOpen (s : Store) (h : handle) : result Transaction :=
  match transactions s !! h with
  | Some t =>
      if decide (status t = Open) then Ok t
      else Throw (InternalError "transaction is terminal")
  | None => Throw (InternalError "unknown transaction")
  end.

(** Modelled from the spec: [fork() -> Transaction] of the missing
    transaction class, "creates a new open child transaction whose visible
    state is parent's state plus nothing yet". *)
Definition fork (s : Store) (h : handle) : result (Store * handle) :=
  _ ← getOpen s h;
  Ok (setTransactions s
        (transactions s ++
           [{| parent := Some h; pending := []; status := Open |}]),
      length (transactions s)).

(** Modelled from the spec: [commit()], "folds the child's pending
    changes into its parent as if they had been applied directly to the
    parent's open scope; child becomes terminal".  Committing the root
    moves its pending changes into the committed state; the root stays the
    scope new forks start from.  Returns the scope committed into. *)
Definition commit (s : Store) (h : handle) : result (Store * handle) :=
  t ← getOpen s h;
  match parent t with
  | Some p =>
      pt ← getOpen s p;
      Ok (setTransactions s
            (<[h := {| parent := parent t; pending := []; status := Committed |}]>
               (<[p := {| parent := parent pt;
                          pending := pending pt ++ pending t;
                          status := status pt |}]> (transactions s))),
          p)
  | None =>
      Ok ({| committed := committed s ++ pending t;
             transactions :=
               <[h := {| parent := None; pending := []; status := Open |}]>
                 (transactions s);
             registry := registry s |},
          h)
  end.

(** Modelled from the spec: [rollback()], "discards the child's pending
    changes entirely; child becomes terminal". *)
Definition rollback (s : Store) (h : handle) : result (Store * handle) :=
  t ← getOpen s h;
  match parent t with
  | Some p =>
      Ok (setTransactions s
            (<[h := {| parent := parent t; pending := []; status := RolledBack |}]>
               (transactions s)),
          p)
  | None =>
      Ok (setTransactions s
            (<[h := {| parent := None; pending := []; status := Open |}]>
               (transactions s)),
          h)
  end.

(** Modelled from the spec: [fullCommit() -> Transaction], "walks up and
    commits every ancestor transaction up to and including the root,
    collapsing the whole nesting chain into a single committed state, and
    returns that now-committed scope".  A fork's handle is larger than its
    parent's, so [S h] steps are enough from [h]. *)
Fixpoint fullCommitFrom (fuel : nat) (s : Store) (h : handle)
  : result (Store * handle) :=
  match fuel with
  | O => Throw (InternalError "transaction chain is not well founded")
  | S fuel' =>
      t ← getOpen s h;
      '(s', ret) ← commit s h;
      match parent t with
      | Some _ => fullCommitFrom fuel' s' ret
      | None => Ok (s', ret)
      end
  end.

Definition fullCommit (s : Store) (h : handle) : result (Store * handle) :=
  fullCommitFrom (S h) s h.

(** The chain of open scopes from a transaction up to the root, as the
    list of their handles (innermost first). *)
Inductive chain (s : Store) : handle → list handle → Prop :=
  | chain_root h t :
      transactions s !! h = Some t →
      status t = Open →
      parent t = None →
      chain s h [h]
  | chain_child h t p hs :
      transactions s !! h = Some t →
      status t = Open →
      parent t = Some p →
      (p < h)%nat →
      chain s p hs →
      chain s h (h :: hs).

Definition pendingOf (s : Store) (h : handle) : list Change :=
  match transactions s !! h with
  | Some t => pending t
  | None => []
  end.

(** The pending changes of a chain, outermost scope first. *)
Definition chainPending (s : Store) (hs : list handle) : list Change :=
  concat (pendingOf s <$> reverse hs).

(** Later uses of the handles a caller may still hold. *)
Inductive Operation : Type :=
  | DoFork (h : handle)
  | DoCommit (h : handle)
  | DoRollback (h : handle)
  | DoFullCommit (h : handle).

Definition perform (s : Store) (o : Operation) : result (Store * handle) :=
  match o with
  | DoFork h => fork s h
  | DoCommit h => commit s h
  | DoRollback h => rollback s h
  | DoFullCommit h => fullCommit s h
  end.

(** A caller's program: a failing operation leaves the store as it was
    and the program goes on. *)
Fixpoint performAll (s : Store) (os : list Operation) : Store :=
  match os with
  | [] => s
  | o :: rest =>
      match perform s o with
      | Ok (s', _) => performAll s' rest
      | Throw _ => performAll s rest
      end
  end.

(** *** Schema registry and result descriptors *)

(** Modelled from the spec: [getObject(name, {nullIfNotFound}) ->
    object|null] of the schema registry. *)
Definition getObject (schema : gmap string SchemaObject) (name : string)
    (nullIfNotFound : bool) : result (option SchemaObject) :=
  match schema !! name with
  | Some o => Ok (Some o)
  | None => if nullIfNotFound then Ok None else Throw (ObjectNotFound name)
  end.

Record _INamedIndex : Type := { idx_name : string; idx_onTable : string }.
Record _ISequence : Type := { seq_name : string }.

(** Modelled from the spec: the casts [asIndex] and [asSeq] of
    interfaces-private, which keep [null] and reject an object of another
    kind. *)
Definition asIndex (name : string) (o : option SchemaObject)
  : result (option _INamedIndex) :=
  match o with
  | None => Ok None
  | Some (IndexObject table) =>
      Ok (Some {| idx_name := name; idx_onTable := table |})
  | Some _ => Throw (QueryError (name +:+ " is not an index"))
  end.

Definition asSeq (name : string) (o : option SchemaObject)
  : result (option _ISequence) :=
  match o with
  | None => Ok None
  | Some SequenceObject => Ok (Some {| seq_name := name |})
  | Some _ => Throw (QueryError (name +:+ " is not a sequence"))
  end.

(** Modelled from the spec: the table's [dropIndex(t, name)] and the
    sequence's [drop(t)], which mutate the index / sequence set directly
    instead of recording a pending change in [t]. *)
Definition dropIndex (s : Store) (t : handle) (name : string) : Store :=
  {| committed := committed s;
     transactions := transactions s;
     registry := delete name (registry s) |}.

Definition dropSequence (s : Store) (t : handle) (name : string) : Store :=
  {| committed := committed s;
     transactions := transactions s;
     registry := delete name (registry s) |}.

(** Modelled from the spec: the result descriptor built by
    [ExecHelper.noData(t, tag)]: the scope to continue in, no rows, and a
    command tag. *)
Record StatementResult : Type := {
  state : handle;
  command : string;
  rowCount : nat
}.

Definition noData (t : handle) (tag : string) : StatementResult :=
  {| state := t; command := tag; rowCount := 0 |}.

Record DropIndexStatement : Type := {
  dis_name : string;
  dis_ifExists : bool;
  dis_concurrently : bool
}.

Record DropSequenceStatement : Type := {
  dss_name : string;
  dss_ifExists : bool
}.

(** *** drop-index.ts *)
Module DropIndex.

Record executor : Type := { idx : option _INamedIndex }.

(** [constructor({ schema }, statement)] *)
Definition new (schema : gmap string SchemaObject)
    (statement : DropIndexStatement) : result executor :=
  o ← getObject schema (dis_name statement) (dis_ifExists statement);
  i ← asIndex (dis_name statement) o;
  Ok {| idx := i |}.

(** [execute(t)] *)
Definition execute (self : executor) (s : Store) (t : handle)
  : result (Store * StatementResult) :=
  (* commit pending data before making changes *)
  '(s, t) ← fullCommit s t;
  (* alter the sequence: this.idx?.onTable.dropIndex(t, this.idx.name) *)
  let s := match idx self with
           | Some i => dropIndex s t (idx_name i)
           | None => s
           end in
  (* new implicit transaction *)
  '(s, t) ← fork s t;
  Ok (s, noData t "DROP").

End DropIndex.

(** *** drop-sequence.ts *)
Module DropSequence.

Record executor : Type := { seq : option _ISequence }.

(** [constructor({ schema }, statement)] *)
Definition new (schema : gmap string SchemaObject)
    (statement : DropSequenceStatement) : result executor :=
  o ← getObject schema (dss_name statement) (dss_ifExists statement);
  q ← asSeq (dss_name statement) o;
  Ok {| seq := q |}.

(** [execute(t)] *)
Definition execute (self : executor) (s : Store) (t : handle)
  : result (Store * StatementResult) :=
  (* commit pending data before making changes *)
  '(s, t) ← fullCommit s t;
  (* drop the sequence: this.seq?.drop(t) *)
  let s := match seq self with
           | Some q => dropSequence s t (seq_name q)
           | None => s
           end in
  (* new implicit transaction *)
  '(s, t) ← fork s t;
  Ok (s, noData t "DROP").

End DropSequence.

(** The full-commit-then-refork pattern the spec requires around a
    structural operation, for an executor [execute] whose structural
    change is [drop], run in transaction [t] with open chain [hs]:
    [execute] first full-commits [t], which commits the pending changes of
    the whole chain and leaves none pending; then applies [drop] to that
    committed scope; then forks it, and returns the fork, open, fresh and
    usable (it can itself be forked), with the tag DROP.  Afterwards the forks of the chain are terminal, and
    nothing a caller does through any handle removes what was committed. *)
Definition fullCommitThenFork
    (execute : Store → handle → result (Store * StatementResult))
    (drop : Store → handle → Store)
    (s : Store) (t : handle) (hs : list handle) : Prop :=
  ∃ (s1 : Store) (root : handle) (s3 : Store) (r : StatementResult),
    fullCommit s t = Ok (s1, root) ∧
    last hs = Some root ∧
    committed s1 = committed s ++ chainPending s hs ∧
    registry s1 = registry s ∧
    (∀ a, a ∈ hs → pendingOf s1 a = []) ∧
    fork (drop s1 root) root = Ok (s3, state r) ∧
    execute s t = Ok (s3, r) ∧
    command r = "DROP" ∧
    transactions s !! state r = None ∧
    transactions s3 !! state r =
      Some {| parent := Some root; pending := []; status := Open |} ∧
    succeeds (fork s3 (state r)) = true ∧
    registry s3 = registry (drop s1 root) ∧
    (∀ a, a ∈ hs → a ≠ root →
       rollback s3 a = Throw (InternalError "transaction is terminal")) ∧
    (∀ os, (committed s ++ chainPending s hs)
             `prefix_of` committed (performAll s3 os)).

(** A store for running the executors: the root holds one pending change,
    its fork (handle 1) another, and that fork's fork (handle 2) a third;
    the registry holds the index [idx_val] and the sequence [seq_id]. *)
Definition store3 : Store :=
  {| committed := [Put "k" 0];
     transactions :=
       [ {| parent := None; pending := [Put "a" 1]; status := Open |};
         {| parent := Some 0%nat; pending := [Put "b" 2]; status := Open |};
         {| parent := Some 1%nat; pending := [Remove "a"]; status := Open |} ];
     registry :=
       <["idx_val" := IndexObject "test"]> (<["seq_id" := SequenceObject]> ∅) |}.

(** The executors planned for [drop index idx_val] and
    [drop sequence seq_id]. *)
Definition drop_idx_val : DropIndex.executor :=
  {| DropIndex.idx := Some {| idx_name := "idx_val"; idx_onTable := "test" |} |}.

Definition drop_seq_id : DropSequence.executor :=
  {| DropSequence.seq := Some {| seq_name := "seq_id" |} |}.

Definition indexDrop (index : DropIndex.executor) (s : Store) (t : handle)
  : Store :=
  match DropIndex.idx index with
  | Some i => dropIndex s t (idx_name i)
  | None => s
  end.

Definition sequenceDrop (sequence : DropSequence.executor) (s : Store)
    (t : handle) : Store :=
  match DropSequence.seq sequence with
  | Some q => dropSequence s t (seq_name q)
  | None => s
  end.

End Versioning.

(** ** query.ts: the statement runner *)

Module QueryEngine.
Import Sql.

(** *** Parsed statements (the AST of the SQL parser, as query.ts reads it) *)

Inductive Expr : Type :=
  | ENull
  | EBool (b : bool)
  | ENumber (n : Z)
  | EString (s : string)
  | EColumnRef (table : option string) (column : string)
  | EBinary (operator : string) (left right : Expr).

(** An entry of [p.from]. *)
Record From : Type := {
  table : option string;
  as_ : option string;
  join : option string;
  on : option Expr
}.

Record Column : Type := { expr : Expr; col_as : option string }.

(** [p.columns]: ['*'] or the SELECT list. *)
Inductive Columns : Type :=
  | Star
  | ColumnList (cols : list Column).

Record OrderBy : Type := {
  ob_expr : Expr;
  ob_type : string;             (* 'ASC' | 'DESC' *)
  ob_nulls : option string      (* 'NULLS FIRST' | 'NULLS LAST' *)
}.

Record Select : Type := {
  from : list From;
  where_ : option Expr;
  columns : Columns;
  orderby : option (list OrderBy)
}.

Record Update : Type := {
  u_table : string;
  u_set : list (string * Expr);
  u_where : option Expr
}.

(** An entry of [p.values]. *)
Record ExprList : Type := { el_type : string; el_value : list Expr }.

Record Insert_Replace : Type := {
  i_table : option (list From);
  i_columns : option (list string);
  i_values : list ExprList
}.

Record ColumnDefinition : Type := {
  dataType : string;
  def_length : option nat;
  suffix : option (list string)
}.

Record CreateDefinition : Type := {
  resource : string;
  cd_column_type : string;        (* f.column.type *)
  cd_column : string;             (* f.column.column *)
  unique_or_primary : option string;
  definition : ColumnDefinition
}.

Record CreateTable : Type := {
  ct_table : list string;         (* the [table] of each entry of p.table *)
  create_definitions : list CreateDefinition
}.

Record IndexColumn : Type := {
  ic_column : Expr;
  ic_nulls : option string;
  ic_order : option string
}.

Record CreateIndex : Type := {
  on_kw : string;
  with_before_where : bool;
  index : string;
  ci_table : string;              (* p.table.table *)
  index_columns : list IndexColumn
}.

(** One parsed statement; the constructor is its [type] (and, for
    [create], its [keyword]). *)
Inductive AST2 : Type :=
  | Ast_insert (p : Insert_Replace)
  | Ast_update (p : Update)
  | Ast_select (p : Select)
  | Ast_create_table (p : CreateTable)
  | Ast_create_index (p : CreateIndex)
  | Ast_create_other (keyword : string)
  | Ast_other (type : string).

(** *** Schema and storage *)

(** [Types.*] of datatypes.ts. *)
Inductive IType : Type :=
  | TText (len : option nat)
  | TInt
  | TFloat
  | TTimestamp
  | TDate
  | TJson
  | TJsonb.

Record SchemaField : Type := {
  id : string;
  type : IType;
  primary : bool;
  unique : bool
}.

(** A row is a JS object from column name to value. *)
Abbreviation Row := (gmap string Value).

(** The selections query.ts builds, as the calls that build them. *)
Inductive _ISelection : Type :=
  | TableSelection (table : string) (alias : option string)
      (* db.getTable(table).selection.setAlias(alias) *)
  | JoinSelection (restrictive joined : _ISelection)
      (on : option Expr) (innerJoin : bool)
      (* new JoinSelection(db, restrictive, joined, on, innerJoin) *)
  | FilterOf (source : _ISelection) (where_ : option Expr)
      (* source.filter(where) *)
  | SelectOf (source : _ISelection) (columns : Columns).
      (* source.select(columns) *)

(** A typed value expression, as [buildValue] returns it. *)
Record IValue : Type := { iv_expr : Expr; iv_type : option IType }.

Record CreateIndexColDef : Type := {
  cic_value : IValue;
  nullsLast : bool;
  desc : bool
}.

Record Table : Type := {
  fields : list SchemaField;
  rows : list Row;
  indexes : list (string * list CreateIndexColDef)
}.

(** The database: its tables by name ([db.getTable]). *)
Abbreviation _IDb := (gmap string Table).

(** What [_query] returns: the value of [last]. *)
Inductive QueryResult : Type :=
  | RUndefined
  | RNull
  | RRows (rows : list Row).

(** The collaborators query.ts imports and that are not part of it:
    value building and conversion (predicate.ts, datatypes.ts), the table
    and selection implementations behind [_IDb], and [watchUse]. *)
Class Runtime : Type := {
  buildValue : option Table → Expr → result IValue;
  convert : IValue → IType → result IValue;
  get : IValue → result Value;
  getColumn : Table → string → result SchemaField;
  insert : Table → Row → result Table;
  createIndex : Table → string → list CreateIndexColDef → result Table;
  declareTable : _IDb → string → list SchemaField → result _IDb;
  enumerate : _IDb → _ISelection → result (list Row);
  check : AST2 → result unit
}.

(** The double quote character, for the messages that quote a name. *)
Definition dquote : string := String (Ascii.ascii_of_nat 34) EmptyString.

Section Query.
Context `{Runtime}.

(** The [switch (from.join)] of [executeSelect]: joins the selection built
    so far, [t], with the table of the current entry, [newT]. *)
Definition joinWith (t newT : _ISelection) (from : From) : result _ISelection :=
  let j := default "undefined" (join from) in
  if String.eqb j "RIGHT JOIN" then
    Ok (JoinSelection newT t (on from) (String.eqb j "INNER JOIN"))
  else if String.eqb j "INNER JOIN" then
    Ok (JoinSelection t newT (on from) true)
  else if String.eqb j "LEFT JOIN" then
    Ok (JoinSelection t newT (on from) false)
  else
    Throw (NotSupported ("Joint type not supported " +:+ j)).

(** The FROM loop of [executeSelect]: [aliases] is the set declared before
    the loop, [t] the selection built so far ([None]: not yet assigned). *)
Fixpoint selectFrom (db : _IDb) (aliases : gset string)
    (t : option _ISelection) (froms : list From) : result (option _ISelection) :=
  match froms with
  | [] => Ok t
  | from :: rest =>
      match table from with
      | None => Throw (NotSupported "no table name")
      | Some name =>
          if String.eqb name "" then Throw (NotSupported "no table name")
          else
            let key := default name (as_ from) in   (* from.as ?? from.table *)
            if decide (key ∈ aliases) then
              Throw (PlainError ("Table name " +:+ dquote +:+ key +:+ dquote
                                 +:+ " specified more than once"))
            else
              match db !! name with
              | None =>
                  Throw (TypeError "Cannot read property 'selection' of undefined")
              | Some _ =>
                  let newT := TableSelection name (as_ from) in
                  match t with
                  | None =>
                      (* first table to be selected *)
                      selectFrom db aliases (Some newT) rest
                  | Some t =>
                      match joinWith t newT from with
                      | Ok t' => selectFrom db aliases (Some t') rest
                      | Throw e => Throw e
                      end
                  end
              end
      end
  end.

(** [executeSelect] up to the selection it enumerates: the value of [t]
    after [t = t.filter(p.where).select(p.columns)]. *)
Definition planSelect (db : _IDb) (p : Select) : result _ISelection :=
  t ← selectFrom db ∅ None (from p);
  match t with
  | None => Throw (TypeError "Cannot read property 'filter' of undefined")
  | Some t => Ok (SelectOf (FilterOf t (where_ p)) (columns p))
  end.

Definition executeSelect (db : _IDb) (p : Select) : result (list Row) :=
  t ← planSelect db p;
  enumerate db t.

Definition executeUpdate (db : _IDb) (p : Update) : result (list Row) :=
  Throw (PlainError "Method not implemented.").

(** The inner loop of [executeInsert]: fills [toInsert] column by column. *)
Fixpoint buildRow (t : Table) (columns : list string) (value : list Expr)
    (toInsert : Row) : result Row :=
  match value, columns with
  | e :: value', c :: columns' =>
      notConv ← buildValue None e;
      col ← getColumn t c;
      converted ← convert notConv (type col);
      v ← get converted;
      buildRow t columns' value' (<[c := v]> toInsert)
  | _, _ => Ok toInsert
  end.

(** The loop of [executeInsert] over [p.values]; the table it returns is
    the table as the loop left it, also when it throws. *)
Fixpoint insertValues (t : Table) (columns : list string)
    (values : list ExprList) : Table * result unit :=
  match values with
  | [] => (t, Ok ())
  | val :: rest =>
      if negb (String.eqb (el_type val) "expr_list") then
        (t, Throw (NotSupported ("insert value type " +:+ el_type val)))
      else if negb (length (el_value val) =? length columns)%nat then
        (t, Throw (QueryError "Insert columns / values count mismatch"))
      else
        match buildRow t columns (el_value val) ∅ with
        | Throw e => (t, Throw e)
        | Ok toInsert =>
            match insert t toInsert with
            | Throw e => (t, Throw e)
            | Ok t' => insertValues t' columns rest
            end
        end
  end.

Definition executeInsert (db : _IDb) (p : Insert_Replace)
  : _IDb * result unit :=
  match i_table p with
  | Some [into] =>
      match table into with
      | None => (db, Throw (NotSupported ""))
      | Some intoTable =>
          if String.eqb intoTable "" then (db, Throw (NotSupported ""))
          else
            match db !! intoTable with
            | None => (db, Throw (TableNotFound intoTable))
            | Some t =>
                let columns := default (id <$> fields t) (i_columns p) in
                let '(t', r) := insertValues t columns (i_values p) in
                (<[intoTable := t']> db, r)
            end
      end
  | _ => (db, Throw (NotSupported ""))
  end.

(** The callback of [def.filter(...).map(...)] in [executeCreateTable]. *)
Definition schemaField (f : CreateDefinition) : result SchemaField :=
  if negb (String.eqb (cd_column_type f) "column_ref") then
    Throw (NotSupported (cd_column_type f))
  else
    '(primary, unique) ←
      match unique_or_primary f with
      | None => Ok (false, false)
      | Some k =>
          if String.eqb k "primary key" then Ok (true, false)
          else if String.eqb k "unique" then Ok (false, true)
          else Throw (NotSupported k)
      end;
    type ←
      (let d := dataType (definition f) in
       if String.eqb d "TEXT" || String.eqb d "VARCHAR" then
         Ok (TText (def_length (definition f)))
       else if String.eqb d "INT" || String.eqb d "INTEGER" then Ok TInt
       else if String.eqb d "DECIMAL" || String.eqb d "FLOAT" then Ok TFloat
       else if String.eqb d "TIMESTAMP" then Ok TTimestamp
       else if String.eqb d "DATE" then Ok TDate
       else if String.eqb d "JSON" then Ok TJson
       else if String.eqb d "JSONB" then Ok TJsonb
       else Throw (NotSupported ("Type " +:+ dquote +:+ d +:+ dquote)));
    match suffix (definition f) with
    | Some (_ :: _) => Throw (NotSupported "column suffix")
    | _ =>
        Ok {| id := cd_column f; type := type;
              primary := primary; unique := unique |}
    end.

Definition executeCreateTable (db : _IDb) (p : CreateTable) : result _IDb :=
  match ct_table p with
  | [] => Throw (TypeError "undefined is not iterable")
  | table :: _ =>
      fields ← mapM schemaField
        (List.filter (λ f, String.eqb (resource f) "column")
           (create_definitions p));
      declareTable db table fields
  end.

Definition executeCreateIndex (db : _IDb) (p : CreateIndex) : result _IDb :=
  if negb (String.eqb (on_kw p) "on") then Throw (NotSupported (on_kw p))
  else if negb (with_before_where p) then Throw (NotSupported "")
  else
    match db !! ci_table p with
    | None => Throw (TypeError "Cannot read property of undefined")
    | Some onTable =>
        columns ← mapM
          (λ x,
             v ← buildValue (Some onTable) (ic_column x);
             Ok {| cic_value := v;
                   nullsLast :=
                     match ic_nulls x with
                     | Some n => String.eqb n "nulls last"
                     | None => false
                     end;
                   desc :=
                     match ic_order x with
                     | Some o => String.eqb o "desc"
                     | None => false
                     end |})
          (index_columns p);
        onTable' ← createIndex onTable (index p) columns;
        Ok (<[ci_table p := onTable']> db)
    end.

(** One turn of the loop of [_query]: the statement's executor, by its
    [type] and [keyword]. *)
Definition dispatch (db : _IDb) (p : AST2) : _IDb * result QueryResult :=
  match p with
  | Ast_insert p =>
      let '(db', r) := executeInsert db p in
      (db', _ ← r; Ok RUndefined)
  | Ast_update p => (db, rows ← executeUpdate db p; Ok (RRows rows))
  | Ast_select p => (db, rows ← executeSelect db p; Ok (RRows rows))
  | Ast_create_table p =>
      match executeCreateTable db p with
      | Ok db' => (db', Ok RNull)
      | Throw e => (db, Throw e)
      end
  | Ast_create_index p =>
      match executeCreateIndex db p with
      | Ok db' => (db', Ok RUndefined)
      | Throw e => (db, Throw e)
      end
  | Ast_create_other keyword => (db, Throw (NotSupported ("create " +:+ keyword)))
  | Ast_other type => (db, Throw (NotSupported type))
  end.

Fixpoint queryLoop (db : _IDb) (parsed : list AST2) (last : QueryResult)
  : _IDb * result QueryResult :=
  match parsed with
  | [] => (db, Ok last)
  | p :: rest =>
      match dispatch db p with
      | (db', Throw e) => (db', Throw e)
      | (db', Ok last') =>
          match check p with
          | Throw e => (db', Throw e)
          | Ok _ => queryLoop db' rest last'
          end
      end
  end.

(** [_query], from the parsed statements on; it returns the database as the
    statements left it together with [last] or the exception thrown. *)
Definition _query (db : _IDb) (parsed : list AST2) : _IDb * result QueryResult :=
  queryLoop db parsed RUndefined.

End Query.

(** *** A runtime to run statements on concrete databases *)

Definition literalType (e : Expr) : option IType :=
  match e with
  | EBool _ => None
  | ENumber _ => Some TInt
  | EString _ => Some (TText None)
  | _ => None
  end.

Definition convertible (e : Expr) (to : IType) : bool :=
  match e, to with
  | ENull, _ => true
  | ENumber _, (TInt | TFloat) => true
  | EString _, TText _ => true
  | _, _ => false
  end.

Definition constant (e : Expr) : result Value :=
  match e with
  | ENull => Ok VNull
  | EBool b => Ok (VBool b)
  | ENumber n => Ok (VInt n)
  | EString s => Ok (VText s)
  | _ => Throw (NotSupported "not a constant")
  end.

(** The scan of a plain [select * from table]. *)
Fixpoint scan (db : _IDb) (sel : _ISelection) : result (list Row) :=
  match sel with
  | TableSelection name _ =>
      match db !! name with
      | Some t => Ok (rows t)
      | None => Throw (TableNotFound name)
      end
  | FilterOf source None => scan db source
  | SelectOf source Star => scan db source
  | _ => Throw (NotSupported "selection")
  end.

(** Modelled from the spec: the least the collaborators of query.ts do, for
    running statements on concrete inputs.  Literals are constants that
    convert to the column types of their kind; a table without constraints
    appends the inserted row ("insertion order if no index is forced");
    declaring a table registers it empty; every statement passes the
    [watchUse] check. *)
#[local] Instance simpleRuntime : Runtime := {|
  buildValue := λ _ e, Ok {| iv_expr := e; iv_type := literalType e |};
  convert := λ v to,
    if convertible (iv_expr v) to
    then Ok {| iv_expr := iv_expr v; iv_type := Some to |}
    else Throw (CastError "cannot convert");
  get := λ v, constant (iv_expr v);
  getColumn := λ t c,
    match List.find (λ f, String.eqb (id f) c) (fields t) with
    | Some f => Ok f
    | None => Throw (QueryError ("column not found: " +:+ c))
    end;
  insert := λ t row,
    Ok {| fields := fields t; rows := rows t ++ [row]; indexes := indexes t |};
  createIndex := λ t name cols,
    Ok {| fields := fields t; rows := rows t;
          indexes := indexes t ++ [(name, cols)] |};
  declareTable := λ db name fs,
    Ok (<[name := {| fields := fs; rows := []; indexes := [] |}]> db);
  enumerate := scan;
  check := λ _, Ok ()
|}.

(** [create table test(val text)] *)
Definition create_test : AST2 :=
  Ast_create_table
    {| ct_table := ["test"];
       create_definitions :=
         [ {| resource := "column"; cd_column_type := "column_ref";
              cd_column := "val"; unique_or_primary := None;
              definition := {| dataType := "TEXT"; def_length := None;
                               suffix := None |} |} ] |}.

Definition tuple (value : list Expr) : ExprList :=
  {| el_type := "expr_list"; el_value := value |}.

Definition into_test : option (list From) :=
  Some [ {| table := Some "test"; as_ := None; join := None; on := None |} ].

(** [insert into test values ('b'), ('a'), (null)] *)
Definition insert_b_a_null : AST2 :=
  Ast_insert
    {| i_table := into_test; i_columns := None;
       i_values := [tuple [EString "b"]; tuple [EString "a"]; tuple [ENull]] |}.

(** [insert into test(val) values ('a'), ('b', 'c'), ('d')] *)
Definition insert_mismatch : Insert_Replace :=
  {| i_table := into_test; i_columns := Some ["val"];
     i_values := [tuple [EString "a"];
                  tuple [EString "b"; EString "c"];
                  tuple [EString "d"]] |}.

(** [update test set val = 'x'] *)
Definition update_test : Update :=
  {| u_table := "test"; u_set := [("val", EString "x")]; u_where := None |}.

Definition from_test (alias : option string) (join : option string)
    (on : option Expr) : From :=
  {| table := Some "test"; as_ := alias; join := join; on := on |}.

Definition order_by_val (type : string) (nulls : option string)
  : option (list OrderBy) :=
  Some [ {| ob_expr := EColumnRef None "val"; ob_type := type;
            ob_nulls := nulls |} ].

(** [select * from test order by val <type> <nulls>] *)
Definition select_test (orderby : option (list OrderBy)) : Select :=
  {| from := [from_test None None None]; where_ := None; columns := Star;
     orderby := orderby |}.

(** [select * from test t inner join test t on t.val = t.val] *)
Definition select_twice : Select :=
  {| from :=
       [ from_test (Some "t") None None;
         from_test (Some "t") (Some "INNER JOIN")
           (Some (EBinary "=" (EColumnRef (Some "t") "val")
                              (EColumnRef (Some "t") "val"))) ];
     where_ := None; columns := Star; orderby := None |}.

(** The columns of a table of the database, read under an alias. *)
Definition tableColumns (db : _IDb) (name : string) (alias : option string)
  : list Column :=
  match db !! name with
  | Some t =>
      (λ f, {| expr := EColumnRef (Some (default name alias)) (id f);
               col_as := None |}) <$> fields t
  | None => []
  end.

(** Modelled from the spec: the column schema of a selection, "a schema
    (ordered list of typed, named/aliased columns)"; the selection classes
    ([JoinSelection], [filter], [select]) are missing from the sources.  A
    table: its columns.  A join: the columns of its first operand, then
    those of its second (swapping the operands is what changes "the
    result's column order").  A filter: "Rows are unmodified".  A
    projection: "only the projected columns", in the order of the list;
    [*] keeps every column. *)
Fixpoint schema (db : _IDb) (sel : _ISelection) : list Column :=
  match sel with
  | TableSelection name alias => tableColumns db name alias
  | JoinSelection restrictive joined _ _ =>
      schema db restrictive ++ schema db joined
  | FilterOf source _ => schema db source
  | SelectOf source Star => schema db source
  | SelectOf _ (ColumnList cols) => cols
  end.


Definition withOrderBy (p : Select) (orderby : option (list OrderBy)) : Select :=
  {| from := from p; where_ := where_ p; columns := columns p;
     orderby := orderby |}.

Definition row_val (v : Value) : Row := {[ "val" := v ]}.

(** [select b.val as right_val, a.val as left_val
     from test a right join test b on a.val = b.val] *)
Definition select_right_join : Select :=
  {| from :=
       [ from_test (Some "a") None None;
         from_test (Some "b") (Some "RIGHT JOIN")
           (Some (EBinary "=" (EColumnRef (Some "a") "val")
                              (EColumnRef (Some "b") "val"))) ];
     where_ := None;
     columns :=
       ColumnList
         [ {| expr := EColumnRef (Some "b") "val"; col_as := Some "right_val" |};
           {| expr := EColumnRef (Some "a") "val"; col_as := Some "left_val" |} ];
     orderby := None |}.

(** The database after [create table test(val text)]. *)
Definition db_test : _IDb :=
  fst (_query ∅ [create_test]).

(** ... and after [insert into test values ('b'), ('a'), (null)]. *)
Definition db_b_a_null : _IDb :=
  fst (_query ∅ [create_test; insert_b_a_null]).



(** *** Reading a built selection *)

(** The tables a selection reads, with their aliases, left to right. *)
Fixpoint leaves (sel : _ISelection) : list (string * option string) :=
  match sel with
  | TableSelection table alias => [(table, alias)]
  | JoinSelection restrictive joined _ _ => leaves restrictive ++ leaves joined
  | FilterOf source _ => leaves source
  | SelectOf source _ => leaves source
  end.

(** The number of [JoinSelection] nodes of a selection. *)
Fixpoint joins (sel : _ISelection) : nat :=
  match sel with
  | TableSelection _ _ => 0
  | JoinSelection restrictive joined _ _ =>
      S (joins restrictive + joins joined)
  | FilterOf source _ => joins source
  | SelectOf source _ => joins source
  end%nat.

(** The table and alias a FROM entry names. *)
Definition fromEntry (f : From) : string * option string :=
  (default "" (table f), as_ f).

(** The [case] labels of the [switch (from.join)]. *)
Definition joinKinds : list (option string) :=
  [Some "RIGHT JOIN"; Some "INNER JOIN"; Some "LEFT JOIN"].

(** The [case] labels of the [switch (f.definition.dataType)]. *)
Definition dataTypes : list string :=
  ["TEXT"; "VARCHAR"; "INT"; "INTEGER"; "DECIMAL"; "FLOAT"; "TIMESTAMP";
   "DATE"; "JSON"; "JSONB"].

(** The type switch of [schemaField], on its own: the function that
    [executeCreateTable] calls in place to compute [type]. *)
Definition columnType (definition : ColumnDefinition) : result IType :=
  let d := dataType definition in
  if String.eqb d "TEXT" || String.eqb d "VARCHAR" then
    Ok (TText (def_length definition))
  else if String.eqb d "INT" || String.eqb d "INTEGER" then Ok TInt
  else if String.eqb d "DECIMAL" || String.eqb d "FLOAT" then Ok TFloat
  else if String.eqb d "TIMESTAMP" then Ok TTimestamp
  else if String.eqb d "DATE" then Ok TDate
  else if String.eqb d "JSON" then Ok TJson
  else if String.eqb d "JSONB" then Ok TJsonb
  else Throw (NotSupported ("Type " +:+ dquote +:+ d +:+ dquote)).

(** The column definitions [executeCreateTable] maps to fields. *)
Definition columnDefinitions (p : CreateTable) : list CreateDefinition :=
  List.filter (λ f, String.eqb (resource f) "column") (create_definitions p).

(** [create index idx_val on test(val desc nulls last)] *)
Definition create_idx_val : CreateIndex :=
  {| on_kw := "on"; with_before_where := true; index := "idx_val";
     ci_table := "test";
     index_columns :=
       [ {| ic_column := EColumnRef None "val"; ic_nulls := Some "nulls last";
            ic_order := Some "desc" |} ] |}.

(** [create table pair(id integer primary key, note varchar(10) not null)] *)
Definition column_id : CreateDefinition :=
  {| resource := "column"; cd_column_type := "column_ref"; cd_column := "id";
     unique_or_primary := Some "primary key";
     definition := {| dataType := "INTEGER"; def_length := None;
                      suffix := None |} |}.

Definition column_note_not_null : CreateDefinition :=
  {| resource := "column"; cd_column_type := "column_ref"; cd_column := "note";
     unique_or_primary := None;
     definition := {| dataType := "VARCHAR"; def_length := Some 10%nat;
                      suffix := Some ["NOT NULL"] |} |}.

Definition create_pair : CreateTable :=
  {| ct_table := ["pair"];
     create_definitions := [column_id; column_note_not_null] |}.

(** [create table pair(id integer primary key, note varchar(10))] *)
Definition create_pair_plain : CreateTable :=
  {| ct_table := ["pair"];
     create_definitions :=
       [ column_id;
         {| resource := "column"; cd_column_type := "column_ref";
            cd_column := "note"; unique_or_primary := None;
            definition := {| dataType := "VARCHAR"; def_length := Some 10%nat;
                             suffix := None |} |} ] |}.

(** The database after [create table test(val text)] and the
    [create table pair] above. *)
Definition db_test_pair : _IDb :=
  fst (_query ∅ [create_test; Ast_create_table create_pair_plain]).





(** [select * from test a inner join test b on a.val = b.val
     left join test c on b.val = c.val] *)
Definition select_three : Select :=
  {| from :=
       [ from_test (Some "a") None None;
         from_test (Some "b") (Some "INNER JOIN")
           (Some (EBinary "=" (EColumnRef (Some "a") "val")
                              (EColumnRef (Some "b") "val")));
         from_test (Some "c") (Some "LEFT JOIN")
           (Some (EBinary "=" (EColumnRef (Some "b") "val")
                              (EColumnRef (Some "c") "val"))) ];
     where_ := None; columns := Star; orderby := None |}.

End QueryEngine.

(** * Properties *)

Section JsonbFacts.
Import Jsonb Sql.








(** C5.  Each of [=], [<], [<=], [>], [>=] with SQL NULL on either side
    evaluates to the NULL value, whatever the other operand is. *)
Theorem compare_with_null (op : CompareOp) (v : Value) :
  evalCompare op VNull v = Ok VNull ∧ evalCompare op v VNull = Ok VNull.
Proof. split; destruct op, v; reflexivity. Qed.

(** The statements of "cannot compare with null". *)
Example cannot_compare_with_null :
  evalCompare OpEq (VJsonb obj_empty) VNull = Ok VNull ∧
  evalCompare OpLt (VJsonb obj_empty) VNull = Ok VNull ∧
  evalCompare OpGt (VJsonb obj_empty) VNull = Ok VNull ∧
  evalCompare OpEq (VJsonb arr_empty) VNull = Ok VNull ∧
  evalCompare OpEq (VJsonb JNull) VNull = Ok VNull.
Proof. repeat split. Qed.

End JsonbFacts.

Section QueryFacts.
Import Sql QueryEngine.
Context `{R : Runtime}.





(** With two tables, [... from a right join b on c] runs as
    [... from b left join a on c] does. *)
Lemma right_join_runs_as_left_join (db : _IDb) (a b : string)
    (alias_a alias_b : option string) (c w : option Expr) (cols : Columns)
    (orderby : option (list OrderBy)) :
  a ≠ "" → b ≠ "" → is_Some (db !! a) → is_Some (db !! b) →
  executeSelect db
    {| from := [ {| table := Some a; as_ := alias_a; join := None; on := None |};
                 {| table := Some b; as_ := alias_b;
                    join := Some "RIGHT JOIN"; on := c |} ];
       where_ := w; columns := cols; orderby := orderby |} =
  executeSelect db
    {| from := [ {| table := Some b; as_ := alias_b; join := None; on := None |};
                 {| table := Some a; as_ := alias_a;
                    join := Some "LEFT JOIN"; on := c |} ];
       where_ := w; columns := cols; orderby := orderby |}.
Proof.
  intros Ha%String.eqb_neq Hb%String.eqb_neq [ta Hta] [tb Htb].
  unfold executeSelect, planSelect. simpl.
  rewrite Ha, Hb, Hta, Htb, !decide_False by set_solver.
  reflexivity.
Qed.

Lemma joinWith_throws (t newT : _ISelection) (f : From) (e : Error) :
  joinWith t newT f = Throw e → ∃ what, e = NotSupported what.
Proof.
  unfold joinWith. intros Hjoin.
  repeat case_match; try discriminate.
  injection Hjoin as <-. eauto.
Qed.

(** C8.  The FROM loop never rejects a repeated alias: the set [aliases]
    is tested but nothing is ever added to it, so no entry is found in it
    and the loop throws neither the "specified more than once" error nor a
    QueryError.  [select * from test t inner join test t on t.val = t.val]
    is planned as a join of the table with itself. *)
Theorem duplicate_alias_is_not_rejected (db : _IDb)
    (t : option _ISelection) (froms : list From) :
  match selectFrom db ∅ t froms with
  | Throw (PlainError _) | Throw (QueryError _) => False
  | _ => True
  end ∧
  planSelect db_b_a_null select_twice =
    Ok (SelectOf
          (FilterOf
             (JoinSelection (TableSelection "test" (Some "t"))
                (TableSelection "test" (Some "t"))
                (Some (EBinary "=" (EColumnRef (Some "t") "val")
                                   (EColumnRef (Some "t") "val")))
                true)
             None)
          Star).
Proof.
  split; [|vm_compute; reflexivity].
  revert t. induction froms as [|f rest IH]; intros t; [done |].
  simpl. destruct (table f) as [name|]; [|done].
  destruct (String.eqb name ""); [done |].
  destruct (decide _) as [Hin|_]; [set_solver |].
  destruct (db !! name); [|done].
  destruct t as [t|]; [|apply IH].
  destruct (joinWith _ _ _) as [t'|e] eqn:Hjoin; [apply IH |].
  by destruct (joinWith_throws _ _ _ _ Hjoin) as [what ->].
Qed.

(** C6.  [executeSelect] never reads [p.orderby]: whatever the ORDER BY
    clause is, the statement returns what the statement without it returns.
    On the rows ('b'), ('a'), (null) every [order by val ...] variant
    returns b, a, null, the order of insertion. *)
Theorem order_by_is_ignored (db : _IDb) (p : Select)
    (orderby : option (list OrderBy)) :
  executeSelect db (withOrderBy p orderby) = executeSelect db p ∧
  (∀ type nulls,
     executeSelect (H := simpleRuntime) db_b_a_null
       (select_test (order_by_val type nulls)) =
     Ok [row_val (VText "b"); row_val (VText "a"); row_val VNull]).
Proof.
  split; [reflexivity |].
  intros type nulls. vm_compute. reflexivity.
Qed.

(** C7, as stated, fails: on the database holding the table [test],
    [update test set val = 'x'] does not succeed. *)
Lemma update_fails_on_existing_table :
  is_Some (db_b_a_null !! "test") ∧
  _query (H := simpleRuntime) db_b_a_null [Ast_update update_test] =
    (db_b_a_null, Throw (PlainError "Method not implemented.")).
Proof. split; [vm_compute; eauto | vm_compute; reflexivity]. Qed.

(** C7, amended.  [executeUpdate] throws "Method not implemented." for
    every database and every UPDATE statement; a batch stops at its first
    UPDATE statement and leaves the database as the statements before it
    left it. *)
Theorem update_is_not_implemented (db : _IDb) (p : Update) (rest : list AST2) :
  executeUpdate db p = Throw (PlainError "Method not implemented.") ∧
  _query db (Ast_update p :: rest) =
    (db, Throw (PlainError "Method not implemented.")).
Proof. split; reflexivity. Qed.

Lemma insertValues_app (t t' : Table) (columns : list string)
    (pre rest : list ExprList) :
  insertValues t columns pre = (t', Ok ()) →
  insertValues t columns (pre ++ rest) = insertValues t' columns rest.
Proof.
  revert t. induction pre as [|val pre IH]; intros t Hpre; simpl in *.
  - by injection Hpre as ->.
  - destruct (negb (String.eqb (el_type val) "expr_list")); [discriminate |].
    destruct (negb (_ =? _)%nat); [discriminate |].
    destruct (buildRow _ _ _ _) as [toInsert|]; [|discriminate].
    destruct (insert t toInsert) as [t1|]; [|discriminate].
    by apply IH.
Qed.

(** C9, as stated, fails: [insert into test(val) values ('a'), ('b', 'c'),
    ('d')] throws the QueryError at its second tuple and the row of its
    first tuple stays in the table. *)
Lemma insert_mismatch_keeps_earlier_rows :
  rows <$> db_test !! "test" = Some [] ∧
  snd (executeInsert (H := simpleRuntime) db_test insert_mismatch) =
    Throw (QueryError "Insert columns / values count mismatch") ∧
  rows <$> fst (executeInsert (H := simpleRuntime) db_test insert_mismatch)
             !! "test" =
    Some [row_val (VText "a")].
Proof. repeat split; vm_compute; reflexivity. Qed.

(** C9, amended.  When the tuples before the first one whose length
    differs from the column list's are inserted without error, the INSERT
    throws the QueryError at that tuple; the table is then the table as
    those earlier tuples left it: their rows stay inserted, and neither the
    mismatched tuple nor a later one is inserted. *)
Theorem insert_mismatch_stops_at_tuple (db : _IDb) (name : string)
    (t t' : Table) (icolumns : option (list string))
    (pre post : list ExprList) (bad : ExprList) :
  name ≠ "" →
  db !! name = Some t →
  insertValues t (default (id <$> fields t) icolumns) pre = (t', Ok ()) →
  el_type bad = "expr_list" →
  length (el_value bad) ≠ length (default (id <$> fields t) icolumns) →
  executeInsert db
    {| i_table := Some [ {| table := Some name; as_ := None;
                            join := None; on := None |} ];
       i_columns := icolumns;
       i_values := pre ++ bad :: post |} =
  (<[name := t']> db,
   Throw (QueryError "Insert columns / values count mismatch")).
Proof.
  intros Hne Htbl Hpre Htype Hlen.
  unfold executeInsert. simpl.
  apply String.eqb_neq in Hne. rewrite Hne, Htbl.
  rewrite (insertValues_app _ _ _ _ _ Hpre). simpl.
  rewrite Htype. simpl.
  apply Nat.eqb_neq in Hlen. rewrite Hlen. reflexivity.
Qed.

End QueryFacts.

Section QueryRuns.
Import Sql QueryEngine.


Lemma insert_mismatch_stops_at_tuple_witness :
  ∃ t' : Table,
    rows t' = [row_val (VText "a")] ∧
    executeInsert (H := simpleRuntime) db_test insert_mismatch =
      (<["test" := t']> db_test,
       Throw (QueryError "Insert columns / values count mismatch")).
Proof.
  exists {| fields := [ {| id := "val"; type := TText None;
                           primary := false; unique := false |} ];
            rows := [row_val (VText "a")]; indexes := [] |}.
  split; [reflexivity |].
  apply (insert_mismatch_stops_at_tuple (R := simpleRuntime) db_test "test"
           {| fields := [ {| id := "val"; type := TText None;
                             primary := false; unique := false |} ];
              rows := []; indexes := [] |}
           _ (Some ["val"]) [tuple [EString "a"]] [tuple [EString "d"]]
           (tuple [EString "b"; EString "c"])).
  - discriminate.
  - vm_compute. reflexivity.
  - vm_compute. reflexivity.
  - reflexivity.
  - simpl. lia.
Defined.

End QueryRuns.

Section VersioningFacts.
Import Versioning.

Lemma getOpen_open (s : Store) (h : handle) (t : Transaction) :
  transactions s !! h = Some t → status t = Open → getOpen s h = Ok t.
Proof.
  intros Hlook Hopen. unfold getOpen. rewrite Hlook.
  by destruct (decide (status t = Open)).
Qed.

Lemma chain_head (s : Store) (h : handle) (hs : list handle) :
  chain s h hs → ∃ tl, hs = h :: tl ∧ ∀ k, k ∈ tl → (k < h)%nat.
Proof.
  induction 1 as [h t _ _ _|h t p hs _ _ _ Hlt _ (tl & -> & Hbelow)].
  - exists []. split; [done | set_solver].
  - exists (p :: tl). split; [done |].
    intros k [->|Hk]%elem_of_cons; [done |].
    specialize (Hbelow k Hk). lia.
Qed.

(** A chain only depends on the parent and the status of its members. *)
Lemma chain_ext (s s1 : Store) (h : handle) (hs : list handle) :
  chain s h hs →
  (∀ k t, k ∈ hs → transactions s !! k = Some t →
     ∃ t1, transactions s1 !! k = Some t1 ∧
           parent t1 = parent t ∧ status t1 = status t) →
  chain s1 h hs.
Proof.
  induction 1 as [h t Hlook Hopen Hroot|h t p hs Hlook Hopen Hpar Hlt _ IH];
    intros Hext.
  - destruct (Hext h t) as (t1 & Hlook1 & Hpar1 & Hst1); [set_solver | done |].
    apply (chain_root s1 h t1); [done | congruence | congruence].
  - destruct (Hext h t) as (t1 & Hlook1 & Hpar1 & Hst1); [set_solver | done |].
    apply (chain_child s1 h t1 p hs); [done | congruence | congruence | done |].
    apply IH. intros k t' Hk. apply Hext. set_solver.
Qed.

Lemma chainPending_cons (s : Store) (h : handle) (hs : list handle) :
  chainPending s (h :: hs) = chainPending s hs ++ pendingOf s h.
Proof.
  unfold chainPending. rewrite reverse_cons, fmap_app, concat_app. simpl.
  by rewrite app_nil_r.
Qed.

Lemma chainPending_ext (s s1 : Store) (hs : list handle) :
  (∀ k, k ∈ hs → pendingOf s1 k = pendingOf s k) →
  chainPending s1 hs = chainPending s hs.
Proof.
  induction hs as [|h hs IH]; intros Hsame; [done |].
  rewrite !chainPending_cons, IH, Hsame; [done | set_solver | set_solver].
Qed.

Lemma chain_open (s : Store) (h : handle) (hs : list handle) :
  chain s h hs → ∃ t, transactions s !! h = Some t ∧ status t = Open.
Proof. destruct 1; eauto. Qed.

(** [fullCommit] on an open chain: it succeeds, returns the root, and the
    pending changes of the whole chain end up committed, outermost first. *)
Lemma fullCommitFrom_chain (hs : list handle) :
  ∀ (s : Store) (h : handle) (fuel : nat),
    chain s h hs → (h < fuel)%nat →
    ∃ s' root,
      fullCommitFrom fuel s h = Ok (s', root) ∧
      last hs = Some root ∧
      committed s' = committed s ++ chainPending s hs ∧
      registry s' = registry s ∧
      length (transactions s') = length (transactions s) ∧
      transactions s' !! root =
        Some {| parent := None; pending := []; status := Open |} ∧
      (∀ a, a ∈ hs → a ≠ root →
         ∃ ta, transactions s' !! a = Some ta ∧
               status ta = Committed ∧ pending ta = []) ∧
      (∀ k, k ∉ hs → transactions s' !! k = transactions s !! k).
Proof.
  induction hs as [|h tl IH]; intros s h0 fuel Hchain Hfuel;
    [inversion Hchain |].
  inversion Hchain
    as [h' t Hlook Hopen Hroot|h' t p hs' Hlook Hopen Hpar Hlt Hrest]; subst.
  - (* the root itself *)
    destruct fuel as [|fuel]; [lia |].
    pose proof (lookup_lt_Some _ _ _ Hlook) as Hlen.
    exists {| committed := committed s ++ pending t;
              transactions :=
                <[h := {| parent := None; pending := []; status := Open |}]>
                  (transactions s);
              registry := registry s |}, h.
    split.
    { simpl. unfold commit. rewrite (getOpen_open _ _ _ Hlook Hopen).
      simpl. rewrite Hroot. reflexivity. }
    simpl. repeat split.
    + unfold chainPending, pendingOf. simpl. rewrite Hlook.
      by rewrite app_nil_r.
    + by rewrite length_insert.
    + by apply list_lookup_insert_eq.
    + by intros a ->%list_elem_of_singleton Hne.
    + intros k Hk. apply list_lookup_insert_ne. set_solver.
  - (* a fork: commit into the parent, then go on from the parent *)
    destruct fuel as [|fuel]; [lia |].
    destruct (chain_open _ _ _ Hrest) as (pt & Hlookp & Hopenp).
    destruct (chain_head _ _ _ Hrest) as (tl' & -> & Hbelow).
    pose proof (lookup_lt_Some _ _ _ Hlook) as Hlen.
    pose proof (lookup_lt_Some _ _ _ Hlookp) as Hlenp.
    set (s1 := setTransactions s
                 (<[h := {| parent := Some p; pending := [];
                            status := Committed |}]>
                    (<[p := {| parent := parent pt;
                               pending := pending pt ++ pending t;
                               status := status pt |}]> (transactions s)))).
    assert (Hcommit : commit s h = Ok (s1, p)).
    { unfold commit. rewrite (getOpen_open _ _ _ Hlook Hopen).
      simpl. rewrite Hpar. rewrite (getOpen_open _ _ _ Hlookp Hopenp).
      reflexivity. }
    assert (Hat_h : transactions s1 !! h =
                    Some {| parent := Some p; pending := [];
                            status := Committed |}).
    { simpl. apply list_lookup_insert_eq. by rewrite length_insert. }
    assert (Hat_p : transactions s1 !! p =
                    Some {| parent := parent pt;
                            pending := pending pt ++ pending t;
                            status := status pt |}).
    { simpl. rewrite list_lookup_insert_ne by lia.
      by apply list_lookup_insert_eq. }
    assert (Hframe1 : ∀ k, k ≠ h → k ≠ p →
                      transactions s1 !! k = transactions s !! k).
    { intros k Hkh Hkp. simpl.
      rewrite list_lookup_insert_ne by done.
      by rewrite list_lookup_insert_ne. }
    assert (Hrest1 : chain s1 p (p :: tl')).
    { apply (chain_ext s); [done |].
      intros k t' [->|Hk]%elem_of_cons Hlookk.
      - eexists. split; [exact Hat_p |]. simpl.
        rewrite Hlookp in Hlookk. by injection Hlookk as <-.
      - specialize (Hbelow k Hk). exists t'.
        rewrite Hframe1 by lia. done. }
    destruct (IH s1 p fuel Hrest1 ltac:(lia))
      as (s' & root & Hrun & Hlast & Hcomm & Hreg & Hlength & Hroot' &
          Hdone & Hframe).
    exists s', root. split.
    { simpl. rewrite (getOpen_open _ _ _ Hlook Hopen). simpl.
      rewrite Hcommit. simpl. rewrite Hpar. exact Hrun. }
    assert (Hh_out : h ∉ p :: tl').
    { intros [->|Hk]%elem_of_cons; [lia |]. specialize (Hbelow h Hk). lia. }
    repeat split.
    + exact Hlast.
    + rewrite Hcomm. simpl. f_equal.
      rewrite (chainPending_cons s h), !(chainPending_cons _ p).
      rewrite (chainPending_ext s s1 tl').
      * assert (Hpend : pendingOf s1 p = pendingOf s p ++ pendingOf s h).
        { unfold pendingOf at 1. rewrite Hat_p. simpl.
          unfold pendingOf. by rewrite Hlookp, Hlook. }
        by rewrite Hpend, app_assoc.
      * intros k Hk. specialize (Hbelow k Hk). unfold pendingOf.
        rewrite Hframe1 by lia. done.
    + by rewrite Hreg.
    + rewrite Hlength. simpl. by rewrite !length_insert.
    + exact Hroot'.
    + intros a [->|Ha]%elem_of_cons Hne.
      * rewrite (Hframe _ Hh_out), Hat_h. eauto.
      * by apply Hdone.
    + intros k [Hkh Hk]%not_elem_of_cons. rewrite Hframe by done.
      apply not_elem_of_cons in Hk as [Hkp _]. by apply Hframe1.
Qed.

Lemma fullCommitFrom_committed (fuel : nat) :
  ∀ (s s' : Store) (h r : handle),
    fullCommitFrom fuel s h = Ok (s', r) →
    committed s `prefix_of` committed s'.
Proof.
  induction fuel as [|fuel IH]; intros s s' h r Hrun; [done |].
  simpl in Hrun.
  destruct (getOpen s h) as [t|] eqn:Hopen; [|done]. simpl in Hrun.
  destruct (commit s h) as [[s1 ret]|] eqn:Hcommit; [|done]. simpl in Hrun.
  assert (Hstep : committed s `prefix_of` committed s1).
  { unfold commit in Hcommit. rewrite Hopen in Hcommit. simpl in Hcommit.
    destruct (parent t).
    - destruct (getOpen s n); [|done]. simpl in Hcommit.
      by injection Hcommit as <- _.
    - injection Hcommit as <- _. simpl. by apply prefix_app_r. }
  destruct (parent t).
  - etrans; [exact Hstep |]. by eapply IH.
  - by injection Hrun as <- _.
Qed.

Lemma perform_committed (s s' : Store) (o : Operation) (r : handle) :
  perform s o = Ok (s', r) → committed s `prefix_of` committed s'.
Proof.
  destruct o as [h|h|h|h]; simpl.
  - unfold fork. destruct (getOpen s h); [|done]. by intros [= <- _].
  - intros Hcommit.
    (* one commit is what fullCommit does in one step *)
    unfold commit in Hcommit.
    destruct (getOpen s h) as [t|]; [|done]. simpl in Hcommit.
    destruct (parent t).
    + destruct (getOpen s n); [|done]. by injection Hcommit as <- _.
    + injection Hcommit as <- _. simpl. by apply prefix_app_r.
  - unfold rollback. destruct (getOpen s h) as [t|]; [|done]. simpl.
    destruct (parent t); by intros [= <- _].
  - apply fullCommitFrom_committed.
Qed.

Lemma performAll_committed (os : list Operation) :
  ∀ s : Store, committed s `prefix_of` committed (performAll s os).
Proof.
  induction os as [|o os IH]; intros s; [done |].
  simpl. destruct (perform s o) as [[s' r]|] eqn:Hstep; [|apply IH].
  etrans; [by eapply perform_committed | apply IH].
Qed.

(** The body shared by the two [execute] methods. *)
Lemma fullCommit_drop_fork (s : Store) (t : handle) (hs : list handle)
    (drop : Store → handle → Store)
    (execute : Store → handle → result (Store * StatementResult)) :
  (∀ s1 root, committed (drop s1 root) = committed s1 ∧
              transactions (drop s1 root) = transactions s1) →
  (∀ s t, execute s t =
          '(s1, t1) ← fullCommit s t;
          '(s3, t3) ← fork (drop s1 t1) t1;
          Ok (s3, noData t3 "DROP")) →
  chain s t hs →
  fullCommitThenFork execute drop s t hs.
Proof.
  intros Hdrop Hexec Hchain.
  destruct (fullCommitFrom_chain hs s t (S t) Hchain ltac:(lia))
    as (s1 & root & Hrun & Hlast & Hcomm & Hreg & Hlength & Hroot &
        Hdone & Hframe).
  destruct (Hdrop s1 root) as [Hdc Hdt].
  pose proof (lookup_lt_Some _ _ _ Hroot) as Hlen.
  set (fresh0 := {| parent := None; pending := []; status := Open |}) in *.
  set (fresh := {| parent := Some root; pending := []; status := Open |}).
  set (s3 := setTransactions (drop s1 root)
               (transactions (drop s1 root) ++ [fresh])).
  assert (Hfork : fork (drop s1 root) root =
                  Ok (s3, length (transactions s1))).
  { assert (Hroot2 : transactions (drop s1 root) !! root = Some fresh0)
      by (by rewrite Hdt).
    unfold fork. rewrite (getOpen_open _ _ _ Hroot2 eq_refl). simpl.
    unfold s3. by rewrite Hdt. }
  exists s1, root, s3, (noData (length (transactions s1)) "DROP").
  repeat split.
  - exact Hrun.
  - exact Hlast.
  - exact Hcomm.
  - exact Hreg.
  - intros a Ha. unfold pendingOf.
    destruct (decide (a = root)) as [->|Hne]; [by rewrite Hroot |].
    destruct (Hdone a Ha Hne) as (ta & -> & _ & ->). done.
  - exact Hfork.
  - rewrite Hexec. unfold fullCommit. rewrite Hrun. simpl.
    rewrite Hfork. reflexivity.
  - simpl. apply lookup_ge_None_2. lia.
  - simpl. rewrite Hdt. by apply list_lookup_middle.
  - assert (Hnew : transactions s3 !! length (transactions s1) = Some fresh)
      by (simpl; rewrite Hdt; by apply list_lookup_middle).
    simpl. unfold fork. by rewrite (getOpen_open _ _ _ Hnew eq_refl).
  - intros a Ha Hne.
    destruct (Hdone a Ha Hne) as (ta & Hta & Hstatus & _).
    unfold rollback, getOpen. simpl. rewrite Hdt.
    rewrite (lookup_app_l_Some _ _ _ _ Hta).
    destruct (decide (status ta = Open)) as [Hopen|_]; [congruence | done].
  - intros os. etrans; [|apply performAll_committed].
    simpl. by rewrite Hdc, Hcomm.
Qed.

Lemma chain_store3 : chain store3 2 [2; 1; 0]%nat.
Proof.
  eapply chain_child; [reflexivity | reflexivity | reflexivity | lia |].
  eapply chain_child; [reflexivity | reflexivity | reflexivity | lia |].
  eapply chain_root; reflexivity.
Defined.

(** C2.  From a transaction with an open chain up to the root, the
    [execute] of DROP INDEX and of DROP SEQUENCE first full-commits (the
    pending changes of the whole chain become committed and none stays
    pending), then drops against that committed scope, then forks it; the
    result descriptor carries the fork, open and fresh, with the tag DROP.
    Afterwards a rollback through a fork of the chain is refused and no
    sequence of fork / commit / rollback / fullCommit through any handle
    removes what was committed. *)
Theorem drop_execute_commits_then_forks (s : Store) (t : handle)
    (hs : list handle) (index : DropIndex.executor)
    (sequence : DropSequence.executor) :
  chain s t hs →
  fullCommitThenFork (DropIndex.execute index) (indexDrop index) s t hs ∧
  fullCommitThenFork (DropSequence.execute sequence) (sequenceDrop sequence)
    s t hs.
Proof.
  intros Hchain. split.
  - apply fullCommit_drop_fork; [| |done].
    + intros s1 root. unfold indexDrop. by destruct (DropIndex.idx index).
    + intros s0 t0. unfold DropIndex.execute, indexDrop.
      destruct (fullCommit s0 t0) as [[s1 t1]|]; reflexivity.
  - apply fullCommit_drop_fork; [| |done].
    + intros s1 root. unfold sequenceDrop.
      by destruct (DropSequence.seq sequence).
    + intros s0 t0. unfold DropSequence.execute, sequenceDrop.
      destruct (fullCommit s0 t0) as [[s1 t1]|]; reflexivity.
Qed.

Lemma drop_execute_commits_then_forks_witness :
  chain store3 2 [2; 1; 0]%nat ∧
  fullCommitThenFork (DropIndex.execute drop_idx_val) (indexDrop drop_idx_val)
    store3 2 [2; 1; 0]%nat ∧
  fullCommitThenFork (DropSequence.execute drop_seq_id)
    (sequenceDrop drop_seq_id) store3 2 [2; 1; 0]%nat.
Proof.
  split; [exact chain_store3 |].
  exact (drop_execute_commits_then_forks store3 2 [2; 1; 0]%nat
           drop_idx_val drop_seq_id chain_store3).
Defined.

(** [drop index idx_val] run in the innermost transaction of [store3]. *)
Example drop_idx_val_run :
  ∃ s3,
    DropIndex.execute drop_idx_val store3 2 =
      Ok (s3, {| state := 3; command := "DROP"; rowCount := 0 |}) ∧
    committed s3 = [Put "k" 0; Put "a" 1; Put "b" 2; Remove "a"] ∧
    status <$> transactions s3 = [Open; Committed; Committed; Open] ∧
    pending <$> transactions s3 = [[]; []; []; []] ∧
    registry s3 !! "idx_val" = None ∧
    registry s3 !! "seq_id" = Some SequenceObject.
Proof. eexists. split; [vm_compute; reflexivity |]. repeat split. Qed.

(** C10.  DROP INDEX IF EXISTS and DROP SEQUENCE IF EXISTS of a name the
    registry does not hold are planned with a null target, and their
    [execute] still full-commits the whole chain and returns a fresh open
    fork with the tag DROP, the registry being left as it was. *)
Theorem drop_if_exists_of_missing_object (s : Store) (t : handle)
    (hs : list handle) (name : string) (concurrently : bool) :
  registry s !! name = None →
  chain s t hs →
  ∃ index sequence,
    DropIndex.new (registry s)
      {| dis_name := name; dis_ifExists := true;
         dis_concurrently := concurrently |} = Ok index ∧
    DropIndex.idx index = None ∧
    DropSequence.new (registry s)
      {| dss_name := name; dss_ifExists := true |} = Ok sequence ∧
    DropSequence.seq sequence = None ∧
    fullCommitThenFork (DropIndex.execute index) (λ s1 _, s1) s t hs ∧
    fullCommitThenFork (DropSequence.execute sequence) (λ s1 _, s1) s t hs.
Proof.
  intros Hmissing Hchain.
  exists {| DropIndex.idx := None |}, {| DropSequence.seq := None |}.
  repeat split.
  - unfold DropIndex.new, getObject. simpl. by rewrite Hmissing.
  - unfold DropSequence.new, getObject. simpl. by rewrite Hmissing.
  - apply fullCommit_drop_fork; [done | | done].
    intros s0 t0. unfold DropIndex.execute. simpl.
    destruct (fullCommit s0 t0) as [[s1 t1]|]; reflexivity.
  - apply fullCommit_drop_fork; [done | | done].
    intros s0 t0. unfold DropSequence.execute. simpl.
    destruct (fullCommit s0 t0) as [[s1 t1]|]; reflexivity.
Qed.

Lemma drop_if_exists_of_missing_object_witness :
  registry store3 !! "missing" = None ∧
  chain store3 2 [2; 1; 0]%nat ∧
  ∃ index sequence,
    DropIndex.new (registry store3)
      {| dis_name := "missing"; dis_ifExists := true;
         dis_concurrently := false |} = Ok index ∧
    DropIndex.idx index = None ∧
    DropSequence.new (registry store3)
      {| dss_name := "missing"; dss_ifExists := true |} = Ok sequence ∧
    DropSequence.seq sequence = None ∧
    fullCommitThenFork (DropIndex.execute index) (λ s1 _, s1)
      store3 2 [2; 1; 0]%nat ∧
    fullCommitThenFork (DropSequence.execute sequence) (λ s1 _, s1)
      store3 2 [2; 1; 0]%nat.
Proof.
  split; [reflexivity |]. split; [exact chain_store3 |].
  exact (drop_if_exists_of_missing_object store3 2 [2; 1; 0]%nat "missing"
           false eq_refl chain_store3).
Defined.

(** [drop index if exists missing]: nothing is dropped, everything is
    committed. *)
Example drop_missing_run :
  ∃ s3,
    DropIndex.execute {| DropIndex.idx := None |} store3 2 =
      Ok (s3, {| state := 3; command := "DROP"; rowCount := 0 |}) ∧
    committed s3 = [Put "k" 0; Put "a" 1; Put "b" 2; Remove "a"] ∧
    registry s3 = registry store3.
Proof. eexists. split; [vm_compute; reflexivity |]. by split. Qed.

End VersioningFacts.

(** * Further properties of query.ts *)

Section SelectPlans.
Import Sql QueryEngine.

Lemma joinWith_cases (t newT : _ISelection) (f : From) :
  match joinWith t newT f with
  | Ok sel =>
      join f ∈ joinKinds ∧
      sel = (if decide (join f = Some "RIGHT JOIN")
             then JoinSelection newT t (on f) false
             else JoinSelection t newT (on f)
                    (bool_decide (join f = Some "INNER JOIN")))
  | Throw e =>
      (join f ∉ joinKinds) ∧
      e = NotSupported ("Joint type not supported "
                        +:+ default "undefined" (join f))
  end.
Proof.
  unfold joinWith, joinKinds.
  destruct (join f) as [j|]; simpl.
  - destruct (String.eqb_spec j "RIGHT JOIN") as [->|Hr].
    { split; [set_solver | reflexivity]. }
    destruct (String.eqb_spec j "INNER JOIN") as [->|Hi].
    { split; [set_solver | reflexivity]. }
    destruct (String.eqb_spec j "LEFT JOIN") as [->|Hl].
    { split; [set_solver | reflexivity]. }
    split; [|reflexivity].
    rewrite !elem_of_cons, elem_of_nil. intros [?|[?|[?|[]]]]; congruence.
  - split; [|reflexivity].
    rewrite !elem_of_cons, elem_of_nil. intros [?|[?|[?|[]]]]; congruence.
Qed.

(** X1.  The join switch of [executeSelect], case by case: an entry is
    joined exactly when its join kind is RIGHT JOIN, INNER JOIN or LEFT
    JOIN; RIGHT JOIN alone puts the entry's table first; the inner flag is
    on for INNER JOIN alone; the ON condition is passed on as it is.  Any
    other kind (a missing one reads "undefined") throws NotSupported with
    the kind in its message. *)
Theorem join_switch_cases (t newT : _ISelection) (f : From) :
  match joinWith t newT f with
  | Ok sel =>
      join f ∈ joinKinds ∧
      sel = (if decide (join f = Some "RIGHT JOIN")
             then JoinSelection newT t (on f) false
             else JoinSelection t newT (on f)
                    (bool_decide (join f = Some "INNER JOIN")))
  | Throw e =>
      (join f ∉ joinKinds) ∧
      e = NotSupported ("Joint type not supported "
                        +:+ default "undefined" (join f))
  end.
Proof. apply joinWith_cases. Qed.

(** X2.  The join kind and the ON condition written on the first FROM
    entry are never read: the statement is planned as if they were not
    there. *)
Theorem first_from_entry_join_is_ignored (db : _IDb) (f : From)
    (rest : list From) (w : option Expr) (cols : Columns)
    (orderby : option (list OrderBy)) (j : option string) (o : option Expr) :
  planSelect db {| from := f :: rest; where_ := w; columns := cols;
                   orderby := orderby |} =
  planSelect db {| from := {| table := table f; as_ := as_ f;
                              join := j; on := o |} :: rest;
                   where_ := w; columns := cols; orderby := orderby |}.
Proof.
  unfold planSelect. simpl.
  destruct (table f) as [name|]; [|reflexivity].
  destruct (String.eqb name ""); [reflexivity |].
  destruct (decide _); [reflexivity |].
  destruct (db !! name); reflexivity.
Qed.

Lemma selectFrom_tables (db : _IDb) (froms : list From) :
  ∀ (t r : option _ISelection),
    selectFrom db ∅ t froms = Ok r →
    Forall (λ f, ∃ name, table f = Some name ∧ name ≠ "" ∧
                         is_Some (db !! name)) froms ∧
    Forall (λ f, join f ∈ joinKinds) (match t with
                                        | Some _ => froms
                                        | None => tail froms
                                        end) ∧
    (r = None → t = None ∧ froms = []).
Proof.
  induction froms as [|f rest IH]; intros t r Hrun; simpl in Hrun.
  - injection Hrun as <-. by destruct t.
  - destruct (table f) as [name|] eqn:Hname; [|done].
    destruct (String.eqb_spec name "") as [|Hne]; [done |].
    destruct (decide _); [done |].
    destruct (db !! name) as [tbl|] eqn:Htbl; [|done].
    assert (Hf : ∃ name, table f = Some name ∧ name ≠ "" ∧
                         is_Some (db !! name)) by eauto.
    destruct t as [t|].
    + pose proof (joinWith_cases t (TableSelection name (as_ f)) f) as Hj.
      destruct (joinWith _ _ _) as [t'|]; [|done].
      destruct (IH _ _ Hrun) as (Hall & Hjoins & Hnone).
      destruct Hj as [Hkind _].
      split; [by constructor |]. split; [by constructor |].
      intros ->. by destruct (Hnone eq_refl).
    + destruct (IH _ _ Hrun) as (Hall & Hjoins & Hnone).
      split; [by constructor |]. split; [done |].
      intros ->. by destruct (Hnone eq_refl).
Qed.

(** X3.  A SELECT is planned only if its FROM list is not empty, every
    entry names a table of the database by a non-empty name, and every
    entry but the first carries one of the three supported join kinds. *)
Theorem planSelect_needs_tables (db : _IDb) (p : Select) (sel : _ISelection) :
  planSelect db p = Ok sel →
  from p ≠ [] ∧
  Forall (λ f, ∃ name, table f = Some name ∧ name ≠ "" ∧
                       is_Some (db !! name)) (from p) ∧
  Forall (λ f, join f ∈ joinKinds) (tail (from p)).
Proof.
  unfold planSelect. intros Hplan.
  destruct (selectFrom db ∅ None (from p)) as [r|] eqn:Hrun; [|done].
  destruct (selectFrom_tables _ _ _ _ Hrun) as (Hall & Hjoins & Hnone).
  destruct r as [t|]; [|done].
  repeat split; [|done|done].
  intros Hempty. rewrite Hempty in Hrun. done.
Qed.

Lemma planSelect_needs_tables_witness :
  from select_three ≠ [] ∧
  Forall (λ f, ∃ name, table f = Some name ∧ name ≠ "" ∧
                       is_Some (db_b_a_null !! name)) (from select_three) ∧
  Forall (λ f, join f ∈ joinKinds) (tail (from select_three)).
Proof.
  eapply (planSelect_needs_tables db_b_a_null select_three).
  vm_compute. reflexivity.
Defined.

Lemma selectFrom_leaves (db : _IDb) (froms : list From) :
  ∀ (t r : option _ISelection),
    selectFrom db ∅ t froms = Ok r →
    from_option leaves [] r ≡ₚ from_option leaves [] t ++ (fromEntry <$> froms) ∧
    from_option joins 0%nat r =
      (from_option joins 0%nat t +
       match t with Some _ => length froms | None => pred (length froms) end)%nat ∧
    (Forall (λ f, join f ≠ Some "RIGHT JOIN") froms →
     from_option leaves [] r = from_option leaves [] t ++ (fromEntry <$> froms)).
Proof.
  induction froms as [|f rest IH]; intros t r Hrun; simpl in Hrun.
  - injection Hrun as <-. simpl. rewrite app_nil_r.
    split; [done |]. split; [destruct t; simpl; lia | done].
  - destruct (table f) as [name|] eqn:Hname; [|done].
    destruct (String.eqb name ""); [done |].
    destruct (decide _); [done |].
    destruct (db !! name) as [tbl|]; [|done].
    assert (Hentry : fromEntry f = (name, as_ f))
      by (unfold fromEntry; by rewrite Hname).
    destruct t as [t|].
    + pose proof (joinWith_cases t (TableSelection name (as_ f)) f) as Hj.
      destruct (joinWith _ _ _) as [t'|]; [|done].
      destruct Hj as [_ ->].
      destruct (IH _ _ Hrun) as (Hperm & Hcount & Horder).
      simpl. rewrite Hentry. split; [|split].
      * rewrite Hperm, (cons_middle _ (leaves t)), app_assoc.
        apply Permutation_app; [|done].
        destruct (decide _); simpl; [apply Permutation_cons_append | done].
      * rewrite Hcount. destruct (decide _); simpl; lia.
      * intros [Hnot Hrest]%Forall_cons.
        rewrite (Horder Hrest), (cons_middle _ (leaves t)), app_assoc. f_equal.
        by destruct (decide _).
    + destruct (IH _ _ Hrun) as (Hperm & Hcount & Horder).
      simpl. rewrite Hentry. split; [|split].
      * exact Hperm.
      * rewrite Hcount. simpl. lia.
      * intros [_ Hrest]%Forall_cons. exact (Horder Hrest).
Qed.

(** X4.  The selection planned for a SELECT reads exactly the tables of the
    FROM list, each under its alias and as often as it is listed (in some
    order), and nests one join less than the FROM list has entries. *)
Theorem planSelect_reads_from_tables (db : _IDb) (p : Select)
    (sel : _ISelection) :
  planSelect db p = Ok sel →
  leaves sel ≡ₚ fromEntry <$> from p ∧
  joins sel = pred (length (from p)).
Proof.
  unfold planSelect. intros Hplan.
  destruct (selectFrom db ∅ None (from p)) as [[t|]|] eqn:Hrun; try done.
  injection Hplan as <-.
  destruct (selectFrom_leaves _ _ _ _ Hrun) as (Hperm & Hcount & _).
  by split.
Qed.

Lemma planSelect_reads_from_tables_witness :
  ∃ sel,
    planSelect db_b_a_null select_right_join = Ok sel ∧
    leaves sel ≡ₚ [("test", Some "a"); ("test", Some "b")] ∧
    joins sel = 1%nat.
Proof.
  eexists. split; [vm_compute; reflexivity |].
  apply (planSelect_reads_from_tables db_b_a_null select_right_join).
  vm_compute. reflexivity.
Defined.

(** X5.  When no entry of the FROM list is a RIGHT JOIN, the planned
    selection reads the tables in the order of the FROM list. *)
Theorem planSelect_keeps_from_order (db : _IDb) (p : Select)
    (sel : _ISelection) :
  planSelect db p = Ok sel →
  Forall (λ f, join f ≠ Some "RIGHT JOIN") (from p) →
  leaves sel = fromEntry <$> from p.
Proof.
  unfold planSelect. intros Hplan Hnone.
  destruct (selectFrom db ∅ None (from p)) as [[t|]|] eqn:Hrun; try done.
  injection Hplan as <-.
  destruct (selectFrom_leaves _ _ _ _ Hrun) as (_ & _ & Horder).
  exact (Horder Hnone).
Qed.

Lemma planSelect_keeps_from_order_witness :
  ∃ sel,
    planSelect db_b_a_null select_three = Ok sel ∧
    leaves sel = [("test", Some "a"); ("test", Some "b"); ("test", Some "c")].
Proof.
  eexists. split; [vm_compute; reflexivity |].
  apply (planSelect_keeps_from_order db_b_a_null select_three).
  - vm_compute. reflexivity.
  - repeat constructor; discriminate.
Defined.

End SelectPlans.

Section Inserts.
Import Sql QueryEngine.
Context `{R : Runtime}.

(** X6.  An INSERT, failing or not, neither adds a table to the database
    nor removes one. *)
Theorem executeInsert_keeps_tables (db : _IDb) (p : Insert_Replace) :
  dom (fst (executeInsert db p)) = dom db.
Proof.
  unfold executeInsert.
  destruct (i_table p) as [[|into [|]]|]; try reflexivity.
  destruct (table into) as [name|]; [|reflexivity].
  destruct (String.eqb name ""); [reflexivity |].
  destruct (db !! name) as [t|] eqn:Htbl; [|reflexivity].
  destruct (insertValues _ _ _) as [t' r]. simpl.
  rewrite dom_insert_L.
  apply subseteq_union_1_L, singleton_subseteq_l.
  by apply elem_of_dom_2 in Htbl.
Qed.

(** X7.  An INSERT, failing or not, leaves every table other than its
    target as it was. *)
Theorem executeInsert_other_tables (db : _IDb) (p : Insert_Replace)
    (other : string) :
  (∀ into, i_table p = Some [into] → table into ≠ Some other) →
  fst (executeInsert db p) !! other = db !! other.
Proof.
  intros Hother. unfold executeInsert.
  destruct (i_table p) as [[|into [|]]|]; try reflexivity.
  specialize (Hother into eq_refl).
  destruct (table into) as [name|]; [|reflexivity].
  destruct (String.eqb name ""); [reflexivity |].
  destruct (db !! name) as [t|]; [|reflexivity].
  destruct (insertValues _ _ _) as [t' r]. simpl.
  apply lookup_insert_ne. congruence.
Qed.

Lemma insertValues_shape (columns : list string) (values : list ExprList) :
  ∀ t : Table,
    snd (insertValues t columns values) = Ok () →
    Forall (λ v, el_type v = "expr_list" ∧
                 length (el_value v) = length columns) values.
Proof.
  induction values as [|val rest IH]; intros t Hok; [constructor |].
  simpl in Hok.
  destruct (String.eqb_spec (el_type val) "expr_list") as [Htype|];
    [|done]. simpl in Hok.
  destruct (Nat.eqb_spec (length (el_value val)) (length columns)) as [Hlen|];
    [|done]. simpl in Hok.
  destruct (buildRow _ _ _ _) as [toInsert|]; [|done].
  destruct (insert t toInsert) as [t1|]; [|done].
  constructor; [done | by eapply IH].
Qed.

(** X8.  An INSERT that succeeds had exactly one target, a table of the
    database, and every tuple of it was an expression list with as many
    values as the column list (the listed columns or, without a list, the
    table's columns). *)
Theorem executeInsert_success_shape (db : _IDb) (p : Insert_Replace) :
  snd (executeInsert db p) = Ok () →
  ∃ into name t,
    i_table p = Some [into] ∧ table into = Some name ∧ db !! name = Some t ∧
    Forall (λ v, el_type v = "expr_list" ∧
                 length (el_value v) =
                 length (default (id <$> fields t) (i_columns p)))
      (i_values p).
Proof.
  unfold executeInsert. intros Hok.
  destruct (i_table p) as [[|into [|]]|]; try done.
  destruct (table into) as [name|] eqn:Hname; [|done].
  destruct (String.eqb name ""); [done |].
  destruct (db !! name) as [t|] eqn:Htbl; [|done].
  exists into, name, t. repeat split; try done.
  apply (insertValues_shape _ _ t).
  by destruct (insertValues _ _ _).
Qed.







(** X10.  Inserting the tuples [l1 ++ l2] is inserting [l1] and then, if
    that did not throw, [l2] into the table [l1] left; if [l1] throws, [l2]
    is not looked at. *)
Theorem insertValues_in_sequence (columns : list string)
    (l1 l2 : list ExprList) (t : Table) :
  insertValues t columns (l1 ++ l2) =
  match insertValues t columns l1 with
  | (t', Ok _) => insertValues t' columns l2
  | (t', Throw e) => (t', Throw e)
  end.
Proof.
  revert t. induction l1 as [|val l1 IH]; intros t; [reflexivity |].
  simpl.
  destruct (negb (String.eqb (el_type val) "expr_list")); [reflexivity |].
  destruct (negb (_ =? _)%nat); [reflexivity |].
  destruct (buildRow _ _ _ _) as [toInsert|]; [|reflexivity].
  destruct (insert t toInsert) as [t1|]; [|reflexivity].
  apply IH.
Qed.

End Inserts.

Section Batches.
Import Sql QueryEngine.
Context `{R : Runtime}.

Lemma queryLoop_app (l1 l2 : list AST2) (db : _IDb)
    (last : QueryResult) :
  queryLoop db (l1 ++ l2) last =
  match queryLoop db l1 last with
  | (db', Ok last') => queryLoop db' l2 last'
  | (db', Throw e) => (db', Throw e)
  end.
Proof.
  revert db last. induction l1 as [|p l1 IH]; intros db last; [reflexivity |].
  simpl. destruct (dispatch db p) as [db' [last'|e]]; [|reflexivity].
  destruct (check p); [apply IH | reflexivity].
Qed.

(** X11.  A batch [l1 ++ l2] runs [l1] and then, if no statement of [l1]
    threw and each passed its check, [l2] on the database [l1] left,
    starting from the result of [l1]; if [l1] throws, no statement of [l2]
    is run and the database stays as [l1] left it. *)
Theorem queryLoop_in_sequence (l1 l2 : list AST2) (db : _IDb)
    (last : QueryResult) :
  queryLoop db (l1 ++ l2) last =
  match queryLoop db l1 last with
  | (db', Ok last') => queryLoop db' l2 last'
  | (db', Throw e) => (db', Throw e)
  end.
Proof. apply queryLoop_app. Qed.

Lemma dispatch_result (db db' : _IDb) (p : AST2) (r : QueryResult) :
  dispatch db p = (db', Ok r) →
  match p with
  | Ast_select q =>
      ∃ rows, executeSelect db q = Ok rows ∧ r = RRows rows ∧ db' = db
  | Ast_create_table q => executeCreateTable db q = Ok db' ∧ r = RNull
  | Ast_insert q => executeInsert db q = (db', Ok ()) ∧ r = RUndefined
  | Ast_create_index q => executeCreateIndex db q = Ok db' ∧ r = RUndefined
  | Ast_update _ | Ast_create_other _ | Ast_other _ => False
  end.
Proof.
  destruct p as [p|p|p|p|p|k|ty]; simpl; intros Hrun.
  - destruct (executeInsert db p) as [d [[]|]]; simpl in Hrun; [|done].
    by injection Hrun as -> <-.
  - done.
  - destruct (executeSelect db p) as [rows|]; simpl in Hrun; [|done].
    injection Hrun as <- <-. eauto.
  - destruct (executeCreateTable db p); [|done]. by injection Hrun as -> <-.
  - destruct (executeCreateIndex db p); [|done]. by injection Hrun as -> <-.
  - done.
  - done.
Qed.

(** X12.  A batch that succeeds returns what its last statement returns
    when it is run on the database the statements before it left: the rows
    [executeSelect] returns for a SELECT (the database staying as it was),
    null for a CREATE TABLE and undefined for an INSERT or a CREATE INDEX
    (the database being the one that statement leaves); the statements
    before it succeeded, every statement passed its check, and a batch that
    ends in an UPDATE, in another kind of CREATE or in another kind of
    statement never succeeds. *)
Theorem _query_returns_last (db db' : _IDb) (pre : list AST2) (p : AST2)
    (r : QueryResult) :
  _query db (pre ++ [p]) = (db', Ok r) →
  ∃ db1 last,
    _query db pre = (db1, Ok last) ∧
    dispatch db1 p = (db', Ok r) ∧
    check p = Ok () ∧
    match p with
    | Ast_select q =>
        ∃ rows, executeSelect db1 q = Ok rows ∧ r = RRows rows ∧ db' = db1
    | Ast_create_table q => executeCreateTable db1 q = Ok db' ∧ r = RNull
    | Ast_insert q => executeInsert db1 q = (db', Ok ()) ∧ r = RUndefined
    | Ast_create_index q => executeCreateIndex db1 q = Ok db' ∧ r = RUndefined
    | Ast_update _ | Ast_create_other _ | Ast_other _ => False
    end.
Proof.
  unfold _query. rewrite queryLoop_app.
  destruct (queryLoop db pre RUndefined) as [db1 [last|]]; [|done].
  simpl. destruct (dispatch db1 p) as [db2 [last'|]] eqn:Hrun; [|done].
  destruct (check p) as [[]|] eqn:Hcheck; [|done].
  intros [= <- <-]. exists db1, last.
  repeat split; try done. by eapply dispatch_result.
Qed.

Lemma schemaField_field (f : CreateDefinition) (sf : SchemaField) :
  schemaField f = Ok sf →
  id sf = cd_column f ∧ primary sf && unique sf = false.
Proof.
  unfold schemaField.
  destruct (negb _); [done |].
  destruct (unique_or_primary f) as [k|].
  - destruct (String.eqb k "primary key"); simpl.
    + destruct (_ : result IType) as [ty|]; [|done]. simpl.
      destruct (suffix _) as [[|]|]; [|done|]; by intros [= <-].
    + destruct (String.eqb k "unique"); [|done]. simpl.
      destruct (_ : result IType) as [ty|]; [|done]. simpl.
      destruct (suffix _) as [[|]|]; [|done|]; by intros [= <-].
  - simpl. destruct (_ : result IType) as [ty|]; [|done]. simpl.
    destruct (suffix _) as [[|]|]; [|done|]; by intros [= <-].
Qed.

Lemma mapM_schemaField (defs : list CreateDefinition) :
  ∀ fields : list SchemaField,
    mapM schemaField defs = Ok fields →
    id <$> fields = cd_column <$> defs ∧
    Forall (λ f, primary f && unique f = false) fields.
Proof.
  induction defs as [|f defs IH]; intros fields Hmap; simpl in Hmap.
  - by injection Hmap as <-.
  - destruct (schemaField f) as [sf|] eqn:Hf; [|done]. simpl in Hmap.
    destruct (mapM schemaField defs) as [rest|]; [|done]. simpl in Hmap.
    injection Hmap as <-.
    destruct (schemaField_field _ _ Hf) as [Hid Hflags].
    destruct (IH _ eq_refl) as [Hids Hall].
    split; [by rewrite !fmap_cons, Hid, Hids | by constructor].
Qed.

(** X13.  A CREATE TABLE that succeeds declared the first table of the
    statement with one field per column definition, named after it, in
    the order of the statement (definitions of another resource are left
    out), and no field is both primary and unique. *)
Theorem executeCreateTable_declares_columns (db db' : _IDb) (p : CreateTable) :
  executeCreateTable db p = Ok db' →
  ∃ table fields,
    head (ct_table p) = Some table ∧
    declareTable db table fields = Ok db' ∧
    id <$> fields = cd_column <$> columnDefinitions p ∧
    Forall (λ f, primary f && unique f = false) fields.
Proof.
  unfold executeCreateTable. intros Hrun.
  destruct (ct_table p) as [|table more]; [done |].
  fold (columnDefinitions p) in Hrun.
  destruct (mapM schemaField (columnDefinitions p)) as [fields|] eqn:Hmap;
    [|done].
  simpl in Hrun. exists table, fields.
  destruct (mapM_schemaField _ _ Hmap). by repeat split.
Qed.

Lemma mapM_schemaField_throws (defs : list CreateDefinition) :
  Exists (λ f, succeeds (schemaField f) = false) defs →
  succeeds (mapM schemaField defs) = false.
Proof.
  induction 1 as [f defs Hf|f defs _ IH]; simpl.
  - by destruct (schemaField f).
  - destruct (schemaField f); [|done]. simpl.
    by destruct (mapM schemaField defs).
Qed.

(** X14.  When one column definition of a CREATE TABLE is not supported,
    the statement throws and the database is left as it was: no table is
    declared, also not with the supported columns. *)
Theorem create_table_is_all_or_nothing (db : _IDb) (p : CreateTable) :
  Exists (λ f, succeeds (schemaField f) = false) (columnDefinitions p) →
  ∃ e, dispatch db (Ast_create_table p) = (db, Throw e).
Proof.
  intros Hbad%mapM_schemaField_throws. simpl. unfold executeCreateTable.
  destruct (ct_table p) as [|table more]; [eauto |].
  fold (columnDefinitions p).
  destruct (mapM schemaField (columnDefinitions p)); [done |]. simpl. eauto.
Qed.

End Batches.

Section Acceptance.
Import Sql QueryEngine.
Context `{R : Runtime}.

Lemma columnType_accepts (def : ColumnDefinition) :
  succeeds (columnType def) = true ↔ dataType def ∈ dataTypes.
Proof.
  unfold columnType, dataTypes. simpl.
  rewrite !elem_of_cons, elem_of_nil.
  repeat (match goal with
          | |- context [String.eqb ?a ?b] =>
              destruct (String.eqb_spec a b) as [->|?]; simpl;
              [split; [intros _; auto 20 | done] |]
          end).
  split; [done |]. intros H. repeat destruct H as [H|H]; done.
Qed.

Lemma schemaField_type (f : CreateDefinition) :
  schemaField f =
  if negb (String.eqb (cd_column_type f) "column_ref") then
    Throw (NotSupported (cd_column_type f))
  else
    '(primary, unique) ←
      match unique_or_primary f with
      | None => Ok (false, false)
      | Some k =>
          if String.eqb k "primary key" then Ok (true, false)
          else if String.eqb k "unique" then Ok (false, true)
          else Throw (NotSupported k)
      end;
    type ← columnType (definition f);
    match suffix (definition f) with
    | Some (_ :: _) => Throw (NotSupported "column suffix")
    | _ =>
        Ok {| id := cd_column f; type := type;
              primary := primary; unique := unique |}
    end.
Proof. reflexivity. Qed.

Lemma typed_field_accepts (def : ColumnDefinition) (name : string)
    (primary unique : bool) :
  succeeds (type ← columnType def;
            match suffix def with
            | Some (_ :: _) => Throw (NotSupported "column suffix")
            | _ => Ok {| id := name; type := type;
                         primary := primary; unique := unique |}
            end) = true ↔
  dataType def ∈ dataTypes ∧ suffix def ∈ [None; Some []].
Proof.
  rewrite <- columnType_accepts.
  destruct (columnType def) as [ty|]; simpl; [|split; [done | by intros []]].
  destruct (suffix def) as [[|s suf]|]; simpl.
  - split; [intros _; split; [done | by repeat constructor] | done].
  - split; [done |]. intros [_ Hs].
    rewrite !elem_of_cons, elem_of_nil in Hs. by destruct Hs as [?|[?|[]]].
  - split; [intros _; split; [done | by repeat constructor] | done].
Qed.

(** X15.  The column definitions CREATE TABLE accepts: a column reference
    that is a primary key, unique or neither, of one of the ten type names
    of the type switch (as written, in upper case), with no suffix. *)
Theorem schemaField_accepts (f : CreateDefinition) :
  succeeds (schemaField f) = true ↔
  cd_column_type f = "column_ref" ∧
  unique_or_primary f ∈ [None; Some "primary key"; Some "unique"] ∧
  dataType (definition f) ∈ dataTypes ∧
  suffix (definition f) ∈ [None; Some []].
Proof.
  rewrite schemaField_type.
  destruct (String.eqb_spec (cd_column_type f) "column_ref") as [Hc|Hc];
    simpl; [|split; [done | by intros [? _]]].
  destruct (unique_or_primary f) as [k|].
  - destruct (String.eqb_spec k "primary key") as [->|Hp].
    { rewrite <- typed_field_accepts. simpl.
      split; [intros H; repeat split; [done | by repeat constructor | apply H] |
              intros (_ & _ & H); apply H]. }
    destruct (String.eqb_spec k "unique") as [->|Hq].
    { rewrite <- typed_field_accepts. simpl.
      split; [intros H; repeat split; [done | by repeat constructor | apply H] |
              intros (_ & _ & H); apply H]. }
    simpl. split; [done |]. intros (_ & Hu & _).
    rewrite !elem_of_cons, elem_of_nil in Hu.
    destruct Hu as [?|[?|[?|[]]]]; congruence.
  - rewrite <- typed_field_accepts. simpl.
    split; [intros H; repeat split; [done | by repeat constructor | apply H] |
            intros (_ & _ & H); apply H].
Qed.
Lemma mapM_index_columns (onTable : Table) (cols : list IndexColumn) :
  ∀ defs : list CreateIndexColDef,
    mapM
      (λ x,
         v ← buildValue (Some onTable) (ic_column x);
         Ok {| cic_value := v;
               nullsLast :=
                 match ic_nulls x with
                 | Some n => String.eqb n "nulls last"
                 | None => false
                 end;
               desc :=
                 match ic_order x with
                 | Some o => String.eqb o "desc"
                 | None => false
                 end |})
      cols = Ok defs →
    nullsLast <$> defs =
      (λ x, bool_decide (ic_nulls x = Some "nulls last")) <$> cols ∧
    desc <$> defs = (λ x, bool_decide (ic_order x = Some "desc")) <$> cols.
Proof.
  induction cols as [|x cols IH]; intros defs Hmap; simpl in Hmap.
  - by injection Hmap as <-.
  - destruct (buildValue (Some onTable) (ic_column x)) as [v|]; [|done].
    simpl in Hmap.
    destruct (mapM _ cols) as [rest|]; [|done]. simpl in Hmap.
    injection Hmap as <-.
    destruct (IH _ eq_refl) as [Hnulls Hdesc].
    rewrite !fmap_cons, Hnulls, Hdesc. simpl. split; f_equal.
    + destruct (ic_nulls x) as [n|]; [|done].
      destruct (String.eqb_spec n "nulls last") as [->|Hne].
      * by rewrite bool_decide_eq_true_2.
      * rewrite bool_decide_eq_false_2; [done | congruence].
    + destruct (ic_order x) as [o|]; [|done].
      destruct (String.eqb_spec o "desc") as [->|Hne].
      * by rewrite bool_decide_eq_true_2.
      * rewrite bool_decide_eq_false_2; [done | congruence].
Qed.

(** X16.  A CREATE INDEX that succeeds was written with [on], names a table
    of the database and replaced that table, and no other, by what the
    table's [createIndex] returned for the statement's index name and one
    key per index column, in order: a key puts nulls last only when the
    column says [nulls last] (nulls are first by default) and is descending
    only when the column says [desc]. *)
Theorem executeCreateIndex_indexes_table (db db' : _IDb) (p : CreateIndex) :
  executeCreateIndex db p = Ok db' →
  on_kw p = "on" ∧ with_before_where p = true ∧
  ∃ onTable columns onTable',
    db !! ci_table p = Some onTable ∧
    createIndex onTable (index p) columns = Ok onTable' ∧
    db' = <[ci_table p := onTable']> db ∧
    nullsLast <$> columns =
      (λ x, bool_decide (ic_nulls x = Some "nulls last")) <$> index_columns p ∧
    desc <$> columns =
      (λ x, bool_decide (ic_order x = Some "desc")) <$> index_columns p.
Proof.
  unfold executeCreateIndex. intros Hrun.
  destruct (String.eqb_spec (on_kw p) "on") as [Hon|]; [|done].
  destruct (with_before_where p); [|done]. simpl in Hrun.
  destruct (db !! ci_table p) as [onTable|]; [|done].
  destruct (mapM _ (index_columns p)) as [columns|] eqn:Hmap; [|done].
  simpl in Hrun.
  destruct (createIndex onTable (index p) columns) as [onTable'|] eqn:Hidx;
    [|done].
  simpl in Hrun. injection Hrun as <-.
  destruct (mapM_index_columns _ _ _ Hmap) as [Hnulls Hdesc].
  repeat split; [done |].
  exists onTable, columns, onTable'. by repeat split.
Qed.

End Acceptance.

Section QueryCoverageRuns.
Import Sql QueryEngine.

Lemma executeInsert_other_tables_witness :
  is_Some (db_test_pair !! "pair") ∧
  fst (executeInsert (H := simpleRuntime) db_test_pair insert_mismatch)
    !! "pair" = db_test_pair !! "pair".
Proof.
  split; [vm_compute; eauto |].
  apply (executeInsert_other_tables (R := simpleRuntime)).
  intros into [= <-]. discriminate.
Defined.

Lemma executeInsert_success_shape_witness :
  ∃ into name t,
    Some [into] = into_test ∧ table into = Some name ∧
    db_test !! name = Some t ∧
    Forall (λ v, el_type v = "expr_list" ∧
                 length (el_value v) = length (id <$> fields t))
      [tuple [EString "b"]; tuple [EString "a"]; tuple [ENull]].
Proof.
  destruct (executeInsert_success_shape (R := simpleRuntime) db_test
              {| i_table := into_test; i_columns := None;
                 i_values := [tuple [EString "b"]; tuple [EString "a"];
                              tuple [ENull]] |})
    as (into & name & t & Hinto & Hname & Htbl & Hall).
  - vm_compute. reflexivity.
  - exists into, name, t. by repeat split.
Defined.


Lemma _query_returns_last_witness :
  ∃ rows,
    _query (H := simpleRuntime) ∅
      ([create_test; insert_b_a_null] ++ [Ast_select (select_test None)]) =
    (db_b_a_null, Ok (RRows rows)) ∧
    executeSelect (H := simpleRuntime) db_b_a_null (select_test None)
      = Ok rows ∧
    rows = [row_val (VText "b"); row_val (VText "a"); row_val VNull].
Proof.
  assert (Hrun : _query (H := simpleRuntime) ∅
                   ([create_test; insert_b_a_null]
                    ++ [Ast_select (select_test None)]) =
                 (db_b_a_null,
                  Ok (RRows [row_val (VText "b"); row_val (VText "a");
                             row_val VNull])))
    by (vm_compute; reflexivity).
  destruct (_query_returns_last (R := simpleRuntime) _ _ _ _ _ Hrun)
    as (db1 & last & _ & _ & _ & rows & Hsel & Hrows & Hdb).
  exists rows. injection Hrows as <-. subst db1.
  split; [exact Hrun |]. by split.
Defined.

Lemma executeCreateTable_declares_columns_witness :
  let pair :=
    {| fields := [ {| id := "id"; type := TInt;
                      primary := true; unique := false |};
                   {| id := "note"; type := TText (Some 10%nat);
                      primary := false; unique := false |} ];
       rows := []; indexes := [] |} in
  ∃ table fields,
    head (ct_table create_pair_plain) = Some table ∧
    declareTable (Runtime := simpleRuntime) ∅ table fields
      = Ok {[ "pair" := pair ]} ∧
    id <$> fields = ["id"; "note"] ∧
    Forall (λ f, primary f && unique f = false) fields.
Proof.
  intros pair.
  apply (executeCreateTable_declares_columns (R := simpleRuntime) ∅
           {[ "pair" := pair ]} create_pair_plain).
  vm_compute. reflexivity.
Defined.

Lemma create_table_is_all_or_nothing_witness :
  succeeds (schemaField column_note_not_null) = false ∧
  ∃ e, dispatch (H := simpleRuntime) db_test (Ast_create_table create_pair)
       = (db_test, Throw e).
Proof.
  split; [reflexivity |].
  apply (create_table_is_all_or_nothing (R := simpleRuntime)).
  apply Exists_cons_tl, Exists_cons_hd. reflexivity.
Defined.

Lemma executeCreateIndex_indexes_table_witness :
  ∃ db' onTable columns onTable',
    executeCreateIndex (H := simpleRuntime) db_test create_idx_val = Ok db' ∧
    db_test !! "test" = Some onTable ∧
    createIndex (Runtime := simpleRuntime) onTable "idx_val" columns
      = Ok onTable' ∧
    db' = <["test" := onTable']> db_test ∧
    nullsLast <$> columns = [true] ∧ desc <$> columns = [true].
Proof.
  destruct (executeCreateIndex (H := simpleRuntime) db_test create_idx_val)
    as [db'|] eqn:Hrun; [|vm_compute in Hrun; discriminate Hrun].
  destruct (executeCreateIndex_indexes_table (R := simpleRuntime) _ _ _ Hrun)
    as (_ & _ & onTable & columns & onTable' & Htbl & Hidx & Hdb & Hn & Hd).
  exists db', onTable, columns, onTable'. by repeat split.
Defined.

End QueryCoverageRuns.

Section DropSequences.
Import Versioning.

Lemma fork_inv (s s' : Store) (h f : handle) :
  fork s h = Ok (s', f) →
  f = length (transactions s) ∧
  s' = setTransactions s
         (transactions s ++
            [{| parent := Some h; pending := []; status := Open |}]).
Proof.
  unfold fork. destruct (getOpen s h); [|done]. simpl.
  by intros [= <- <-].
Qed.

(** X17.  Two structural drops in a row (transactions modelled as for C2):
    the DROP SEQUENCE run in the transaction a DROP INDEX returned
    succeeds, commits nothing new, since that transaction had nothing
    pending, and returns yet another, later fork with the tag DROP. *)
Theorem drop_index_then_drop_sequence (s : Store) (t : handle)
    (hs : list handle) (index : DropIndex.executor)
    (sequence : DropSequence.executor) :
  chain s t hs →
  ∃ s3 r s5 r',
    DropIndex.execute index s t = Ok (s3, r) ∧
    DropSequence.execute sequence s3 (state r) = Ok (s5, r') ∧
    command r' = "DROP" ∧
    (state r < state r')%nat ∧
    committed s3 = committed s ++ chainPending s hs ∧
    committed s5 = committed s3 ∧
    registry s5 = registry (sequenceDrop sequence s3 (state r)).
Proof.
  intros Hchain.
  destruct (fullCommitFrom_chain hs s t (S t) Hchain ltac:(lia))
    as (s1 & root & Hrun & Hlast & Hcomm & Hreg & Hlength & Hroot & _ & _).
  pose proof (lookup_lt_Some _ _ _ Hroot) as Hlen.
  set (s2 := indexDrop index s1 root).
  assert (Hs2 : committed s2 = committed s1 ∧
                transactions s2 = transactions s1).
  { unfold s2, indexDrop. by destruct (DropIndex.idx index). }
  destruct Hs2 as [Hc2 Ht2].
  set (fresh := {| parent := Some root; pending := []; status := Open |}).
  set (s3 := setTransactions s2 (transactions s2 ++ [fresh])).
  set (f := length (transactions s1)).
  assert (Hroot2 : transactions s2 !! root =
                   Some {| parent := None; pending := []; status := Open |})
    by (by rewrite Ht2).
  assert (Hfirst : DropIndex.execute index s t = Ok (s3, noData f "DROP")).
  { unfold DropIndex.execute, fullCommit. rewrite Hrun. simpl.
    fold (indexDrop index s1 root). fold s2.
    unfold fork. rewrite (getOpen_open _ _ _ Hroot2 eq_refl). simpl.
    unfold s3, f. by rewrite Ht2. }
  assert (Hat_f : transactions s3 !! f = Some fresh).
  { simpl. rewrite Ht2. by apply list_lookup_middle. }
  assert (Hat_root : transactions s3 !! root =
                     Some {| parent := None; pending := []; status := Open |}).
  { simpl. by apply lookup_app_l_Some. }
  assert (Hchain3 : chain s3 f [f; root]).
  { apply (chain_child s3 f fresh root [root]); try done.
    eapply chain_root; done. }
  destruct (fullCommit_drop_fork s3 f [f; root] (sequenceDrop sequence)
              (DropSequence.execute sequence))
    as (s1' & root' & s5 & r' & _ & _ & Hcomm' & Hreg' & _ & Hfork' & Hsecond &
        Htag & Hnew & _ & _ & Hreg5 & _); [| |done|].
  { intros s0 root0. unfold sequenceDrop.
    by destruct (DropSequence.seq sequence). }
  { intros s0 t0. unfold DropSequence.execute, sequenceDrop.
    destruct (fullCommit s0 t0) as [[s1'' t1]|]; reflexivity. }
  destruct (fork_inv _ _ _ _ Hfork') as [_ Hs5].
  exists s3, (noData f "DROP"), s5, r'.
  repeat split; try done.
  - apply lookup_ge_None_1 in Hnew. simpl in *.
    rewrite length_app in Hnew. simpl in Hnew. unfold f. rewrite <- Ht2. lia.
  - simpl. by rewrite Hc2.
  - rewrite Hs5. simpl.
    assert (Hcd : committed (sequenceDrop sequence s1' root') = committed s1')
      by (unfold sequenceDrop; by destruct (DropSequence.seq sequence)).
    rewrite Hcd, Hcomm'. unfold chainPending, pendingOf. simpl.
    rewrite Ht2.
    rewrite (lookup_app_l_Some _ _ _ _ Hroot).
    rewrite list_lookup_middle by done. simpl. by rewrite app_nil_r.
  - rewrite Hreg5. unfold sequenceDrop.
    destruct (DropSequence.seq sequence); simpl; by rewrite Hreg'.
Qed.

Lemma drop_index_then_drop_sequence_witness :
  ∃ s3 r s5 r',
    DropIndex.execute drop_idx_val store3 2 = Ok (s3, r) ∧
    DropSequence.execute drop_seq_id s3 (state r) = Ok (s5, r') ∧
    command r' = "DROP" ∧
    (state r < state r')%nat ∧
    committed s3 = committed store3 ++ chainPending store3 [2; 1; 0]%nat ∧
    committed s5 = committed s3 ∧
    registry s5 = registry (sequenceDrop drop_seq_id s3 (state r)).
Proof.
  apply (drop_index_then_drop_sequence store3 2 [2; 1; 0]%nat).
  exact chain_store3.
Defined.

End DropSequences.
